(** * document_processor.py: knowledge-base document preprocessing

    A shallow embedding of [src/document_processor.py]: the four format
    adapters ([process_word], [process_pdf], [process_excel],
    [process_powerpoint]), the Q&A synthesis ([convert_to_qa_format] and its
    helpers) and the batch driver ([process_all_documents]).

    Python [str] values are sequences of Unicode code points, so a string is
    a [list N]; literals are written in UTF-8 and decoded by [u].  The [re]
    module is embedded as a small backtracking matcher whose patterns are
    written constructor by constructor next to the source pattern. *)

From Stdlib Require Import List NArith ZArith Arith Bool Lia String Ascii Permutation.
Import ListNotations.

Set Implicit Arguments.
Local Open Scope N_scope.

(** ** Strings *)

Definition char := N.
Definition str := list char.

(** UTF-8 decoding of a source literal into code points. *)
Fixpoint utf8_decode (bs : list N) : str :=
  match bs with
  | [] => []
  | b :: r =>
    if b <? 128 then b :: utf8_decode r
    else if b <? 224 then
      match r with
      | b1 :: r1 => ((b - 192) * 64 + (b1 - 128)) :: utf8_decode r1
      | _ => []
      end
    else if b <? 240 then
      match r with
      | b1 :: b2 :: r2 =>
        ((b - 224) * 4096 + (b1 - 128) * 64 + (b2 - 128)) :: utf8_decode r2
      | _ => []
      end
    else
      match r with
      | b1 :: b2 :: b3 :: r3 =>
        ((b - 240) * 262144 + (b1 - 128) * 4096 + (b2 - 128) * 64 + (b3 - 128))
          :: utf8_decode r3
      | _ => []
      end
  end.

Definition u (s : string) : str :=
  utf8_decode (map N_of_ascii (list_ascii_of_string s)).

Arguments u s%_string.

Definition NL : char := 10.

Fixpoint str_eqb (a b : str) : bool :=
  match a, b with
  | [], [] => true
  | x :: a', y :: b' => (x =? y) && str_eqb a' b'
  | _, _ => false
  end.

Definition in_range (lo hi c : char) : bool := (lo <=? c) && (c <=? hi).

(** [str.isspace] per character, which is also what [\s] matches on [str]
    patterns: the whitespace code points of the Unicode database. *)
Definition is_space (c : char) : bool :=
  in_range 9 13 c || in_range 28 32 c || (c =? 133) || (c =? 160)
  || (c =? 5760) || in_range 8192 8202 c || in_range 8232 8233 c
  || (c =? 8239) || (c =? 8287) || (c =? 12288).

(** First code points of the ten-digit blocks of category Nd (Unicode 14.0);
    the mathematical digits U+1D7CE..U+1D7FF form one longer block. *)
Definition digit_blocks : list N :=
  [48; 1632; 1776; 1984; 2406; 2534; 2662; 2790; 2918; 3046; 3174; 3302;
   3430; 3558; 3664; 3792; 3872; 4160; 4240; 6112; 6160; 6470; 6608; 6784;
   6800; 6992; 7088; 7232; 7248; 42528; 43216; 43264; 43472; 43504; 43600;
   44016; 65296; 66720; 68912; 69734; 69872; 69942; 70096; 70384; 70736;
   70864; 71248; 71360; 71472; 71904; 72016; 72784; 73040; 73120; 92768;
   92864; 93008; 123200; 123632; 125264; 130032].

(** What [\d] matches on [str] patterns: the decimal digits of Unicode. *)
Definition is_digit (c : char) : bool :=
  existsb (fun b => in_range b (b + 9) c) digit_blocks
  || in_range 120782 120831 c.

Fixpoint drop_space (s : str) : str :=
  match s with
  | c :: s' => if is_space c then drop_space s' else s
  | [] => []
  end.

(** [s.strip()] *)
Definition strip (s : str) : str := rev (drop_space (rev (drop_space s))).

Fixpoint starts_with (p s : str) : bool :=
  match p, s with
  | [], _ => true
  | x :: p', y :: s' => (x =? y) && starts_with p' s'
  | _ :: _, [] => false
  end.

(** [needle in hay] *)
Fixpoint contains (needle hay : str) : bool :=
  starts_with needle hay ||
  match hay with
  | [] => false
  | _ :: hay' => contains needle hay'
  end.

(** [sep.join(parts)] *)
Fixpoint join (sep : str) (parts : list str) : str :=
  match parts with
  | [] => []
  | [p] => p
  | p :: rest => p ++ sep ++ join sep rest
  end.

(** [[x] * n] *)
Definition replicate {A} (n : nat) (x : A) : list A := repeat x n.

(** Decimal rendering of a natural number, as [str(n)] and [f"{n}"] do. *)
Fixpoint digits_of (fuel : nat) (n : N) (acc : str) : str :=
  match fuel with
  | O => acc
  | S fuel' =>
    let acc' := (48 + n mod 10) :: acc in
    if n / 10 =? 0 then acc' else digits_of fuel' (n / 10) acc'
  end.

Definition str_of_nat (n : nat) : str :=
  digits_of (S n) (N.of_nat n) [].

(** [f"{n:02d}"]: at least two digits, zero padded. *)
Definition str_of_nat_02d (n : nat) : str :=
  let d := str_of_nat n in
  match d with
  | [_] => 48 :: d
  | _ => d
  end.

(** [s.split('.')[-1]]: the text after the last dot, the whole string when
    there is none. *)
Fixpoint after_last_dot (s : str) (acc : str) : str :=
  match s with
  | [] => acc
  | c :: s' => if c =? 46 then after_last_dot s' [] else after_last_dot s' (acc ++ [c])
  end.

(** ** The interpreter's tables

    Two parts of the Unicode database are too large to list here and are taken
    from the running interpreter: [str.isalnum] (which decides [\w]) and
    [str.lower]. *)
Class Unicode := {
  isalnum : char -> bool;
  lower : str -> str
}.

(** What [\w] matches on [str] patterns. *)
Definition is_word `{Unicode} (c : char) : bool :=
  isalnum c || is_digit c || (c =? 95).

(** [list(set(xs))]: the distinct elements of [xs] in the iteration order of
    the set, which follows the string hashes of the running process. *)
Class SetOrder := { set_list : list str -> list str }.

(** What every run guarantees about that order: each element once. *)
Definition valid_order (o : SetOrder) : Prop :=
  forall xs, NoDup (@set_list o xs) /\ forall x, In x (@set_list o xs) <-> In x xs.

(** ** Regular expressions

    The constructs the patterns of the program use.  Every repetition in them
    is over a single character class, so [Rep] carries the class, the minimal
    count and whether it is greedy.  All patterns have at most one capturing
    group. *)
Inductive regex :=
| Eps
| Cls (p : char -> bool)
| Seq (r1 r2 : regex)
| Alt (r1 r2 : regex)
| Rep (greedy : bool) (lo : nat) (p : char -> bool)
| Grp (r : regex)
| Ahead (r : regex)
| Bol
| Eol.

(** A match in progress: position, rest of the subject, text of group 1. *)
Definition outcome := option (nat * option str).
Definition cont := nat -> str -> option str -> outcome.

Definition or_else (a : outcome) (b : outcome) : outcome :=
  match a with
  | Some m => Some m
  | None => b
  end.

(** [p{lo,}]: as many as possible first, giving back one at a time. *)
Fixpoint rep_greedy (p : char -> bool) (lo i : nat) (s : str)
    (g : option str) (k : cont) : outcome :=
  let stop := if Nat.eqb lo 0 then k i s g else None in
  match s with
  | c :: s' =>
    if p c then or_else (rep_greedy p (pred lo) (S i) s' g k) stop else stop
  | [] => stop
  end.

(** [p{lo,}?]: as few as possible first, taking one more at a time. *)
Fixpoint rep_lazy (p : char -> bool) (lo i : nat) (s : str)
    (g : option str) (k : cont) : outcome :=
  let more :=
    match s with
    | c :: s' => if p c then rep_lazy p (pred lo) (S i) s' g k else None
    | [] => None
    end in
  if Nat.eqb lo 0 then or_else (k i s g) more else more.

(** The backtracking matcher.  [$] (without MULTILINE) holds at the end of the
    subject and just before a final newline; [^] holds at position 0. *)
Fixpoint exec (r : regex) (i : nat) (s : str) (g : option str) (k : cont)
    : outcome :=
  match r with
  | Eps => k i s g
  | Cls p =>
    match s with
    | c :: s' => if p c then k (S i) s' g else None
    | [] => None
    end
  | Seq r1 r2 => exec r1 i s g (fun i' s' g' => exec r2 i' s' g' k)
  | Alt r1 r2 => or_else (exec r1 i s g k) (exec r2 i s g k)
  | Rep true lo p => rep_greedy p lo i s g k
  | Rep false lo p => rep_lazy p lo i s g k
  | Grp r1 => exec r1 i s g (fun i' s' _ => k i' s' (Some (firstn (i' - i) s)))
  | Ahead r1 =>
    match exec r1 i s g (fun i' _ g' => Some (i', g')) with
    | Some (_, g') => k i s g'
    | None => None
    end
  | Bol => if Nat.eqb i 0 then k i s g else None
  | Eol =>
    match s with
    | [] => k i s g
    | [c] => if c =? NL then k i s g else None
    | _ => None
    end
  end.

(** A match starting at position [i], where [s] is the subject from [i] on:
    its end position and group 1. *)
Definition match_at (r : regex) (i : nat) (s : str) : outcome :=
  exec r i s None (fun i' _ g => Some (i', g)).

(** [re.match(r, s)] as a truth value. *)
Definition re_match (r : regex) (s : str) : bool :=
  match match_at r 0 s with
  | Some _ => true
  | None => false
  end.

(** [re.search(r, s)]: group 1 of the leftmost match. *)
Fixpoint search_from (r : regex) (i : nat) (s : str) : option (option str) :=
  match match_at r i s with
  | Some (_, g) => Some g
  | None =>
    match s with
    | [] => None
    | _ :: s' => search_from r (S i) s'
    end
  end.

Definition re_search (r : regex) (s : str) : option (option str) :=
  search_from r 0 s.

Fixpoint has_group (r : regex) : bool :=
  match r with
  | Seq r1 r2 | Alt r1 r2 => has_group r1 || has_group r2
  | Grp _ => true
  | Ahead r1 => has_group r1
  | _ => false
  end.

(** What [re.findall] reports for one match: group 1 when the pattern has a
    group (the empty string when the group took no part), the whole match
    otherwise. *)
Definition reported (r : regex) (whole : str) (g : option str) : str :=
  if has_group r then
    match g with
    | Some t => t
    | None => []
    end
  else whole.

(** The left-to-right scan of [re.findall]: matches do not overlap; [skip]
    counts the characters still covered by the previous match.  No pattern of
    the program matches the empty string, so the rules for empty matches play
    no part; after one the scan moves on by a character. *)
Fixpoint findall_scan (r : regex) (skip i : nat) (s : str) : list str :=
  match skip with
  | S n =>
    match s with
    | [] => []
    | _ :: s' => findall_scan r n (S i) s'
    end
  | O =>
    match match_at r i s with
    | Some (e, g) =>
      reported r (firstn (e - i) s) g ::
      match s with
      | [] => []
      | _ :: s' => findall_scan r (pred (e - i)) (S i) s'
      end
    | None =>
      match s with
      | [] => []
      | _ :: s' => findall_scan r 0 (S i) s'
      end
    end
  end.

Definition re_findall (r : regex) (s : str) : list str := findall_scan r 0 0 s.

(** The scan of [re.sub] with a literal replacement. *)
Fixpoint sub_scan (r : regex) (repl : str) (skip i : nat) (s : str) : str :=
  match skip with
  | S n =>
    match s with
    | [] => []
    | _ :: s' => sub_scan r repl n (S i) s'
    end
  | O =>
    match match_at r i s with
    | Some (e, _) =>
      repl ++
      match s with
      | [] => []
      | c :: s' =>
        if Nat.eqb e i then c :: sub_scan r repl 0 (S i) s'
        else sub_scan r repl (pred (e - i)) (S i) s'
      end
    | None =>
      match s with
      | [] => []
      | c :: s' => c :: sub_scan r repl 0 (S i) s'
      end
    end
  end.

Definition re_sub (r : regex) (repl s : str) : str := sub_scan r repl 0 0 s.

(** *** Pattern notation *)

Definition is_char (c : char) : char -> bool := fun x => x =? c.
Definition one_of (cs : str) : char -> bool := fun x => existsb (N.eqb x) cs.
Definition either (p q : char -> bool) : char -> bool := fun x => p x || q x.

(** [.] with DOTALL. *)
Definition any_char : char -> bool := fun _ => true.

Fixpoint seq_all (rs : list regex) : regex :=
  match rs with
  | [] => Eps
  | [r] => r
  | r :: rest => Seq r (seq_all rest)
  end.

Fixpoint alt_all (rs : list regex) : regex :=
  match rs with
  | [] => Eps
  | [r] => r
  | r :: rest => Alt r (alt_all rest)
  end.

(** A literal, case-sensitively. *)
Definition lit (s : str) : regex := seq_all (map (fun c => Cls (is_char c)) s).

(** The characters a basic Latin letter of a pattern matches under IGNORECASE:
    both cases, and the few other letters that share its case mapping. *)
Definition ieq (c : char) : char -> bool := fun x =>
  let lc := if in_range 65 90 c then c + 32 else c in
  let up := if in_range 97 122 lc then lc - 32 else lc in
  (x =? lc) || (x =? up)
  || ((lc =? 115) && (x =? 383))
  || ((lc =? 105) && ((x =? 304) || (x =? 305)))
  || ((lc =? 107) && (x =? 8490)).

(** A literal of basic Latin letters under IGNORECASE. *)
Definition ilit (s : str) : regex := seq_all (map (fun c => Cls (ieq c)) s).

(** [r{n}] *)
Definition times (n : nat) (r : regex) : regex := seq_all (repeat r n).

(** ** Data model

    The dicts the program passes around, one record per shape of dict.  A key
    an adapter may leave out is an [option] field. *)

Definition bytes := list N.

(** Image dicts: [process_pdf] sets page and index, [process_powerpoint] sets
    slide, [extract_word_images] sets relation_id. *)
Record image := {
  img_page : option nat;
  img_index : option nat;
  img_slide : option nat;
  img_data : str;
  img_format : str;
  img_relation_id : option str
}.

(** Table dicts: [extract_table_data] builds the keys headers and rows,
    [process_excel] builds the single key data. *)
Record table := {
  tbl_headers : option (list str);
  tbl_rows : option (list (list str));
  tbl_data : option (list (list str))
}.

Record section := {
  sec_heading : str;
  sec_content : str;
  sec_tables : list table;
  sec_images : list image
}.

Record document := {
  doc_title : str;
  doc_source_file : str;
  doc_type : str;
  doc_sections : list section;
  doc_images : list image
}.

Inductive qa_type := TextQA | TableQA | ImageQA.

Record qa_pair := {
  qa_question : str;
  qa_answer : str;
  qa_keywords : list str;
  qa_source : str;
  qa_kind : qa_type;
  qa_image_data : option str;
  qa_image_format : option str
}.

(** ** What the document libraries hand to the adapters *)

Record paragraph := { par_style : str; par_text : str }.

(** Children of the document body: a paragraph, a table (rows of cell texts),
    or anything else (section properties and the like). *)
Inductive body_element :=
| CT_P (p : paragraph)
| CT_Tbl (rows : list (list str))
| CT_Other.

(** A relationship of the document part; [inl msg] when reading the blob of
    its target raises. *)
Record relationship := {
  rel_target_ref : str;
  rel_blob : str + bytes;
  rel_rId : str
}.

Record word_doc := { word_body : list body_element; word_rels : list relationship }.

(** An image reference of a PDF page once turned into a pixmap: its number of
    components and its PNG encoding; [inl msg] when that raises. *)
Record pixmap := { pix_n : nat; pix_png : bytes }.
Record pdf_page := { page_text : str; page_images : list (str + pixmap) }.

(** Cell values of a worksheet as [str] renders them; [None] is an empty
    cell.  Floating-point and date cells are outside this embedding. *)
Inductive cell_value :=
| VStr (s : str)
| VInt (z : Z)
| VBool (b : bool).

Record sheet := { sheet_name : str; sheet_rows : list (list (option cell_value)) }.

(** A shape of a slide: its text when it has a text attribute, whether it is
    a picture, and its image ([inl msg] when reading it raises). *)
Record picture := { pic_blob : bytes; pic_ext : str }.
Record shape := {
  shape_text : option str;
  shape_is_picture : bool;
  shape_image : str + picture
}.

Definition slide := list shape.

(** What a file turns out to be when a library opens it. *)
Inductive file_body :=
| Unreadable
| WordFile (d : word_doc)
| PdfFile (pages : list pdf_page)
| ExcelFile (sheets : list sheet)
| PptFile (slides : list slide).

Record path := { path_dir : str; path_name : str }.

(** [file_error] is the message of the exception a library raises when it
    cannot read the file as the format it expects. *)
Record file := { file_path : path; file_data : file_body; file_error : str }.

(** ** pathlib *)

(** Index of the last dot of a name. *)
Fixpoint rfind_dot (s : str) (i : nat) (last : option nat) : option nat :=
  match s with
  | [] => last
  | c :: s' => rfind_dot s' (S i) (if c =? 46 then Some i else last)
  end.

(** The split point of name into stem and suffix: a dot that is neither the
    first nor the last character. *)
Definition suffix_at (name : str) : option nat :=
  match rfind_dot name 0 None with
  | Some i =>
    if (Nat.ltb 0 i && Nat.ltb i (pred (List.length name)))%bool then Some i else None
  | None => None
  end.

Definition path_suffix (p : path) : str :=
  match suffix_at (path_name p) with
  | Some i => skipn i (path_name p)
  | None => []
  end.

Definition path_stem (p : path) : str :=
  match suffix_at (path_name p) with
  | Some i => firstn i (path_name p)
  | None => path_name p
  end.

(** [str(Path(root) / file)] *)
Definition path_str (p : path) : str := path_dir p ++ u "/" ++ path_name p.

(** ** base64 *)

Definition b64_char (n : N) : char :=
  if n <? 26 then 65 + n
  else if n <? 52 then 97 + (n - 26)
  else if n <? 62 then 48 + (n - 52)
  else if n =? 62 then 43 else 47.

(** [base64.b64encode(bs).decode()] *)
Fixpoint b64encode (bs : bytes) : str :=
  match bs with
  | [] => []
  | [a] => [b64_char (a / 4); b64_char ((a mod 4) * 16); 61; 61]
  | [a; b] =>
    [b64_char (a / 4); b64_char ((a mod 4) * 16 + b / 16);
     b64_char ((b mod 16) * 4); 61]
  | a :: b :: c :: r =>
    b64_char (a / 4) :: b64_char ((a mod 4) * 16 + b / 16)
    :: b64_char ((b mod 16) * 4 + c / 64) :: b64_char (c mod 64)
    :: b64encode r
  end.

(** ** Logging: level and message of each record *)

Inductive level := INFO | WARNING | ERROR.
Definition entry := (level * str)%type.

(** Truth value of a string or list: non-empty. *)
Definition truthy {A} (l : list A) : bool :=
  match l with
  | [] => false
  | _ :: _ => true
  end.

(** [enumerate(xs)] *)
Definition enumerate {A} (xs : list A) : list (nat * A) :=
  combine (seq 0 (List.length xs)) xs.

(** ** StructureClassifier: [is_heading] *)

Definition cn_numerals : str := u "一二三四五六七八九十".
Definition dot_or_space : char -> bool := either (is_char 46) is_space.
Definition colon : char -> bool := one_of (u ":：").

Definition heading_patterns : list regex :=
  [ (* ^第[一二三四五六七八九十\d]+[章节部分] *)
    seq_all [Bol; lit (u "第"); Rep true 1 (either (one_of cn_numerals) is_digit);
             Cls (one_of (u "章节部分"))];
    (* ^\d+[\.\s] *)
    seq_all [Bol; Rep true 1 is_digit; Cls dot_or_space];
    (* ^[一二三四五六七八九十]+[\.\s] *)
    seq_all [Bol; Rep true 1 (one_of cn_numerals); Cls dot_or_space];
    (* ^问题[:：] *)
    seq_all [Bol; lit (u "问题"); Cls colon];
    (* ^解决方案[:：] *)
    seq_all [Bol; lit (u "解决方案"); Cls colon];
    (* ^步骤[:：] *)
    seq_all [Bol; lit (u "步骤"); Cls colon];
    (* ^注意[:：] *)
    seq_all [Bol; lit (u "注意"); Cls colon] ].

Definition heading_keywords : list str :=
  [u "问题"; u "解决"; u "步骤"; u "方法"; u "设置"; u "配置"].

Definition is_heading (text : str) : bool :=
  existsb (fun pattern => re_match pattern (strip text)) heading_patterns
  || (Nat.ltb (List.length (strip text)) 50
      && existsb (fun keyword => contains keyword text) heading_keywords).

(** ** FormatAdapter: text document *)

Definition extract_table_data (rows : list (list str)) : table :=
  match rows with
  | [] => {| tbl_headers := Some []; tbl_rows := Some []; tbl_data := None |}
  | first :: rest =>
    {| tbl_headers := Some (map strip first);
       tbl_rows := Some (map (map strip) rest);
       tbl_data := None |}
  end.

Definition new_section (heading : str) : section :=
  {| sec_heading := heading; sec_content := []; sec_tables := [];
     sec_images := [] |}.

(** [if current_section['content'] or current_section['tables']] *)
Definition has_body (s : section) : bool :=
  truthy (sec_content s) || truthy (sec_tables s).

Definition flush (sections : list section) (current : section) : list section :=
  if has_body current then sections ++ [current] else sections.

Definition is_heading_paragraph (p : paragraph) : bool :=
  starts_with (u "Heading") (par_style p) || is_heading (strip (par_text p)).

(** One turn of the loop over the body: the sections so far and the current
    section. *)
Definition word_element (st : list section * section) (element : body_element)
    : list section * section :=
  let (sections, current) := st in
  match element with
  | CT_P p =>
    let text := strip (par_text p) in
    if truthy text then
      if is_heading_paragraph p then (flush sections current, new_section text)
      else
        (sections,
         {| sec_heading := sec_heading current;
            sec_content := sec_content current ++ text ++ [NL];
            sec_tables := sec_tables current;
            sec_images := sec_images current |})
    else st
  | CT_Tbl rows =>
    (sections,
     {| sec_heading := sec_heading current;
        sec_content := sec_content current;
        sec_tables := sec_tables current ++ [extract_table_data rows];
        sec_images := sec_images current |})
  | CT_Other => st
  end.

Definition word_sections (body : list body_element) : list section :=
  let (sections, current) := fold_left word_element body ([], new_section []) in
  flush sections current.

Definition word_image (acc : list image * list entry) (rel : relationship)
    : list image * list entry :=
  let (images, warnings) := acc in
  if contains (u "image") (rel_target_ref rel) then
    match rel_blob rel with
    | inr image_data =>
      (images ++ [{| img_page := None; img_index := None; img_slide := None;
                     img_data := b64encode image_data;
                     img_format := after_last_dot (rel_target_ref rel) [];
                     img_relation_id := Some (rel_rId rel) |}],
       warnings)
    | inl e => (images, warnings ++ [(WARNING, u "提取Word图片时出错: " ++ e)])
    end
  else acc.

Definition extract_word_images (doc : word_doc) : list image * list entry :=
  fold_left word_image (word_rels doc) ([], []).

(** An adapter returns the content, or [None] after logging why, together
    with the records it logged. *)
Definition adapter := file -> option document * list entry.

Definition process_word : adapter := fun f =>
  match file_data f with
  | WordFile doc =>
    let (images, warnings) := extract_word_images doc in
    (Some {| doc_title := path_stem (file_path f);
             doc_source_file := path_str (file_path f);
             doc_type := u "word";
             doc_sections := word_sections (word_body doc);
             doc_images := images |},
     warnings)
  | _ =>
    (None,
     [(ERROR, u "处理Word文档 " ++ path_str (file_path f) ++ u " 时出错: "
              ++ file_error f)])
  end.

(** ** FormatAdapter: paginated document *)

Definition pdf_image (page_num : nat) (acc : list image * list entry)
    (it : nat * (str + pixmap)) : list image * list entry :=
  let (images, warnings) := acc in
  let (img_index, img) := it in
  match img with
  | inr pix =>
    if Nat.ltb (pix_n pix) 5 then
      (images ++ [{| img_page := Some (page_num + 1)%nat;
                     img_index := Some img_index; img_slide := None;
                     img_data := b64encode (pix_png pix);
                     img_format := u "png"; img_relation_id := None |}],
       warnings)
    else acc
  | inl e => (images, warnings ++ [(WARNING, u "提取PDF图片时出错: " ++ e)])
  end.

Definition pdf_page_step (acc : list section * (list image * list entry))
    (it : nat * pdf_page) : list section * (list image * list entry) :=
  let (sections, imgs) := acc in
  let (page_num, page) := it in
  let text := page_text page in
  let sections' :=
    if truthy (strip text) then
      sections ++ [{| sec_heading := u "第" ++ str_of_nat (page_num + 1) ++ u "页";
                      sec_content := text; sec_tables := []; sec_images := [] |}]
    else sections in
  (sections', fold_left (pdf_image page_num) (enumerate (page_images page)) imgs).

Definition process_pdf : adapter := fun f =>
  match file_data f with
  | PdfFile pages =>
    let '(sections, (images, warnings)) :=
      fold_left pdf_page_step (enumerate pages) ([], ([], [])) in
    (Some {| doc_title := path_stem (file_path f);
             doc_source_file := path_str (file_path f);
             doc_type := u "pdf";
             doc_sections := sections;
             doc_images := images |},
     warnings)
  | _ =>
    (None,
     [(ERROR, u "处理PDF文档 " ++ path_str (file_path f) ++ u " 时出错: "
              ++ file_error f)])
  end.

(** ** FormatAdapter: tabular workbook *)

(** [str(cell)] *)
Definition py_str (v : cell_value) : str :=
  match v with
  | VStr s => s
  | VInt Z0 => u "0"
  | VInt (Zpos p) => str_of_nat (Pos.to_nat p)
  | VInt (Zneg p) => u "-" ++ str_of_nat (Pos.to_nat p)
  | VBool true => u "True"
  | VBool false => u "False"
  end.

Definition is_some {A} (o : option A) : bool :=
  match o with
  | Some _ => true
  | None => false
  end.

Definition cell_text (cell : option cell_value) : str :=
  match cell with
  | Some v => py_str v
  | None => []
  end.

Definition sheet_data (sh : sheet) : list (list str) :=
  map (map cell_text) (filter (existsb is_some) (sheet_rows sh)).

Definition excel_sheet (sections : list section) (sh : sheet) : list section :=
  let data := sheet_data sh in
  if truthy data then
    sections ++ [{| sec_heading := u "工作表: " ++ sheet_name sh;
                    sec_content := [];
                    sec_tables := [{| tbl_headers := None; tbl_rows := None;
                                      tbl_data := Some data |}];
                    sec_images := [] |}]
  else sections.

Definition process_excel : adapter := fun f =>
  match file_data f with
  | ExcelFile sheets =>
    (Some {| doc_title := path_stem (file_path f);
             doc_source_file := path_str (file_path f);
             doc_type := u "excel";
             doc_sections := fold_left excel_sheet sheets [];
             doc_images := [] |},
     [])
  | _ =>
    (None,
     [(ERROR, u "处理Excel文档 " ++ path_str (file_path f) ++ u " 时出错: "
              ++ file_error f)])
  end.

(** ** FormatAdapter: slide deck *)

(** One shape: its text goes to the content of the slide, its picture to the
    images of the document. *)
Definition ppt_shape (slide_num : nat) (acc : str * (list image * list entry))
    (sh : shape) : str * (list image * list entry) :=
  let '(content, (images, warnings)) := acc in
  let content' :=
    match shape_text sh with
    | Some t => content ++ t ++ [NL]
    | None => content
    end in
  if shape_is_picture sh then
    match shape_image sh with
    | inr image =>
      (content',
       (images ++ [{| img_page := None; img_index := None;
                      img_slide := Some (slide_num + 1)%nat;
                      img_data := b64encode (pic_blob image);
                      img_format := pic_ext image; img_relation_id := None |}],
        warnings))
    | inl e =>
      (content', (images, warnings ++ [(WARNING, u "提取PPT图片时出错: " ++ e)]))
    end
  else (content', (images, warnings)).

Definition ppt_slide (acc : list section * (list image * list entry))
    (it : nat * slide) : list section * (list image * list entry) :=
  let (sections, imgs) := acc in
  let (slide_num, shapes) := it in
  let (content, imgs') := fold_left (ppt_shape slide_num) shapes ([], imgs) in
  let slide_content :=
    {| sec_heading := u "幻灯片 " ++ str_of_nat (slide_num + 1);
       sec_content := content; sec_tables := []; sec_images := [] |} in
  ((if truthy (strip content) then sections ++ [slide_content] else sections),
   imgs').

Definition ppt_content (slides : list slide)
    : list section * (list image * list entry) :=
  fold_left ppt_slide (enumerate slides) ([], ([], [])).

Definition process_powerpoint : adapter := fun f =>
  match file_data f with
  | PptFile slides =>
    let '(sections, (images, warnings)) := ppt_content slides in
    (Some {| doc_title := path_stem (file_path f);
             doc_source_file := path_str (file_path f);
             doc_type := u "powerpoint";
             doc_sections := sections;
             doc_images := images |},
     warnings)
  | _ =>
    (None,
     [(ERROR, u "处理PowerPoint文档 " ++ path_str (file_path f) ++ u " 时出错: "
              ++ file_error f)])
  end.

(** ** QuestionGeneralizer *)

Definition date_pattern : regex :=      (* \d{4}-\d{2}-\d{2} *)
  seq_all [times 4 (Cls is_digit); lit (u "-"); times 2 (Cls is_digit);
           lit (u "-"); times 2 (Cls is_digit)].
Definition digits_pattern : regex :=    (* \d+ *)
  Rep true 1 is_digit.
Definition estate_pattern : regex :=    (* 小区\d+ *)
  Seq (lit (u "小区")) (Rep true 1 is_digit).
Definition user_pattern `{Unicode} : regex :=   (* 用户\w+ *)
  Seq (lit (u "用户")) (Rep true 1 is_word).

Definition question_prefixes : list str :=
  [u "如何"; u "怎样"; u "什么"; u "为什么"; u "问题"].

Definition generalize_question `{Unicode} (question content : str) : str :=
  let generalized := question in
  let generalized := re_sub date_pattern (u "[日期]") generalized in
  let generalized := re_sub digits_pattern (u "[数字]") generalized in
  let generalized := re_sub estate_pattern (u "[小区名称]") generalized in
  let generalized := re_sub user_pattern (u "[用户名]") generalized in
  if negb (existsb (fun prefix => contains prefix generalized) question_prefixes)
  then
    if contains (u "设置") content || contains (u "配置") content then
      u "如何" ++ generalized
    else if contains (u "错误") content || contains (u "故障") content then
      u "如何解决" ++ generalized
    else if contains (u "步骤") content || contains (u "流程") content then
      u "如何进行" ++ generalized
    else generalized
  else generalized.

(** ** AnswerEnhancer *)

(** (SELECT|INSERT|UPDATE|DELETE|CREATE|ALTER|DROP)\s+.*?;  with IGNORECASE
    and DOTALL *)
Definition sql_pattern : regex :=
  seq_all [Grp (alt_all [ilit (u "SELECT"); ilit (u "INSERT"); ilit (u "UPDATE");
                         ilit (u "DELETE"); ilit (u "CREATE"); ilit (u "ALTER");
                         ilit (u "DROP")]);
           Rep true 1 is_space; Rep false 0 any_char; lit (u ";")].

(** 步骤\s*\d+[:：](.+?)(?=步骤\s*\d+|$)  with DOTALL *)
Definition step_pattern : regex :=
  seq_all [lit (u "步骤"); Rep true 0 is_space; Rep true 1 is_digit; Cls colon;
           Grp (Rep false 1 any_char);
           Ahead (Alt (seq_all [lit (u "步骤"); Rep true 0 is_space;
                                Rep true 1 is_digit])
                      Eol)].

Definition sql_block (enhanced sql : str) : str :=
  enhanced ++ u "```sql" ++ [NL] ++ sql ++ [NL] ++ u "```" ++ [NL].

Definition step_line (enhanced : str) (it : nat * str) : str :=
  let (i, step) := it in
  enhanced ++ str_of_nat (i + 1) ++ u ". " ++ strip step ++ [NL].

Definition enhance_answer (answer base_context : str) : str :=
  let enhanced := base_context ++ [NL; NL] ++ answer in
  let sql_matches := re_findall sql_pattern answer in
  let enhanced :=
    if truthy sql_matches then
      fold_left sql_block sql_matches
        (enhanced ++ [NL; NL] ++ u "相关SQL语句：" ++ [NL])
    else enhanced in
  if contains (u "步骤") answer then
    let steps := re_findall step_pattern answer in
    if truthy steps then
      fold_left step_line (enumerate steps)
        (enhanced ++ [NL; NL] ++ u "操作步骤：" ++ [NL])
    else enhanced
  else enhanced.

(** ** KeywordExtractor *)

Definition tech_keywords : list str :=
  [u "SRMS"; u "SQL"; u "IE"; u "Edge"; u "Login"; u "Batch"; u "Journal";
   u "Demand Note"; u "SPS"; u "Occupant"; u "Building ID"; u "CashType";
   u "Synergis"; u "Community App"; u "Facility Booking"].

Definition action_keywords : list str :=
  [u "设置"; u "配置"; u "登录"; u "删除"; u "更新"; u "导出"; u "列印"; u "解锁";
   u "修复"; u "处理"; u "解决"; u "安装"; u "注册"; u "上传"; u "下载"].

(** [\u4e00-\u9fff]{2,} *)
Definition cjk_run : regex := Rep true 2 (in_range 19968 40959).

Definition important_words (content : str) : list str := re_findall cjk_run content.

Definition found_keywords `{Unicode} (content : str) : list str :=
  let content_lower := lower content in
  filter (fun keyword => contains (lower keyword) content_lower)
         (tech_keywords ++ action_keywords).

Definition extract_keywords `{Unicode} `{SetOrder} (content : str) : list str :=
  set_list (found_keywords content
            ++ firstn 10 (set_list (important_words content))).

(** ** QASynthesizer *)

(** Searched with DOTALL and IGNORECASE; the literals are CJK characters and
    colons, which have no other case. *)
Definition question_patterns : list regex :=
  [ (* 问题[:：](.+?)(?=解决|答案|方法|步骤|$) *)
    seq_all [lit (u "问题"); Cls colon; Grp (Rep false 1 any_char);
             Ahead (alt_all [lit (u "解决"); lit (u "答案"); lit (u "方法");
                             lit (u "步骤"); Eol])];
    (* 故障[:：](.+?)(?=解决|修复|处理|$) *)
    seq_all [lit (u "故障"); Cls colon; Grp (Rep false 1 any_char);
             Ahead (alt_all [lit (u "解决"); lit (u "修复"); lit (u "处理"); Eol])];
    (* 错误[:：](.+?)(?=解决|修复|处理|$) *)
    seq_all [lit (u "错误"); Cls colon; Grp (Rep false 1 any_char);
             Ahead (alt_all [lit (u "解决"); lit (u "修复"); lit (u "处理"); Eol])];
    (* 如何(.+?)(?=\n|$) *)
    seq_all [lit (u "如何"); Grp (Rep false 1 any_char);
             Ahead (Alt (Cls (is_char NL)) Eol)];
    (* 怎样(.+?)(?=\n|$) *)
    seq_all [lit (u "怎样"); Grp (Rep false 1 any_char);
             Ahead (Alt (Cls (is_char NL)) Eol)] ].

(** [match.group(1)]; the group takes part in every match of the patterns
    above. *)
Definition group1 (g : option str) : str :=
  match g with
  | Some t => t
  | None => []
  end.

(** The first pattern that is found gives the question. *)
Fixpoint specific_question (patterns : list regex) (content : str) : option str :=
  match patterns with
  | [] => None
  | pattern :: rest =>
    match re_search pattern content with
    | Some g => Some (strip (group1 g))
    | None => specific_question rest content
    end
  end.

Definition newlines : regex := Rep true 1 (is_char NL).   (* \n+ *)

(** re.sub(r'\n+', '\n', content.strip()) *)
Definition clean_content (content : str) : str :=
  re_sub newlines [NL] (strip content).

Definition extract_qa_from_text `{Unicode} `{SetOrder}
    (heading content base_context : str) : qa_pair :=
  let content := clean_content content in
  let question := if truthy heading then heading else u "相关问题" in
  let answer := content in
  let question :=
    match specific_question question_patterns content with
    | Some q => q
    | None => question
    end in
  let generalized_question := generalize_question question content in
  {| qa_question := generalized_question;
     qa_answer := enhance_answer answer base_context;
     qa_keywords := extract_keywords content;
     qa_source := base_context;
     qa_kind := TextQA;
     qa_image_data := None;
     qa_image_format := None |}.

(** [d.get(key, [])] *)
Definition get_or_empty {A} (o : option (list A)) : list A :=
  match o with
  | Some l => l
  | None => []
  end.

Definition table_line (table_content : str) (row : list str) : str :=
  table_content ++ join (u " | ") row ++ [NL].

Definition extract_qa_from_table (heading : str) (t : table) (base_context : str)
    : option qa_pair :=
  let headers := get_or_empty (tbl_headers t) in
  let rows := get_or_empty (tbl_rows t) in
  if negb (truthy headers) || negb (truthy rows) then None
  else
    let table_content := u "表格标题：" ++ heading ++ [NL] in
    let table_content := table_content ++ u "表格内容：" ++ [NL] in
    let table_content := table_content ++ join (u " | ") headers ++ [NL] in
    let table_content :=
      table_content
      ++ join (u "|") (replicate (List.length headers) (u "---")) ++ [NL] in
    let table_content := fold_left table_line rows table_content in
    let question := u "关于" ++ heading ++ u "的详细信息" in
    Some {| qa_question := question;
            qa_answer := table_content;
            qa_keywords := headers ++ [heading];
            qa_source := base_context;
            qa_kind := TableQA;
            qa_image_data := None;
            qa_image_format := None |}.

Definition create_image_qa (doc_title : str) (img : image) (index : nat)
    (base_context : str) : qa_pair :=
  let question := doc_title ++ u "中的图片" ++ str_of_nat (index + 1) in
  let answer :=
    u "这是来自文档《" ++ doc_title ++ u "》的第" ++ str_of_nat (index + 1)
    ++ u "张图片。" in
  let answer :=
    match img_page img, img_slide img with
    | Some page, _ => answer ++ u "位于第" ++ str_of_nat page ++ u "页。"
    | None, Some sl => answer ++ u "位于第" ++ str_of_nat sl ++ u "张幻灯片。"
    | None, None => answer
    end in
  {| qa_question := question;
     qa_answer := answer;
     qa_keywords := [doc_title; u "图片"; u "图像"];
     qa_source := base_context;
     qa_kind := ImageQA;
     qa_image_data := Some (img_data img);
     qa_image_format := Some (img_format img) |}.

Definition option_list {A} (o : option A) : list A :=
  match o with
  | Some a => [a]
  | None => []
  end.

(** The Q&A pairs of one section: the text pair, then one per table. *)
Definition section_qa `{Unicode} `{SetOrder} (base_context : str)
    (qa_pairs : list qa_pair) (s : section) : list qa_pair :=
  let qa_pairs :=
    if truthy (strip (sec_content s)) then
      qa_pairs ++ [extract_qa_from_text (sec_heading s) (sec_content s) base_context]
    else qa_pairs in
  fold_left
    (fun qa_pairs t =>
       qa_pairs ++ option_list (extract_qa_from_table (sec_heading s) t base_context))
    (sec_tables s) qa_pairs.

Definition convert_to_qa_format `{Unicode} `{SetOrder} (content : document)
    : list qa_pair :=
  let base_context := u "文档来源：" ++ doc_title content in
  let qa_pairs := fold_left (section_qa base_context) (doc_sections content) [] in
  fold_left
    (fun qa_pairs (it : nat * image) =>
       let (i, img) := it in
       qa_pairs ++ [create_image_qa (doc_title content) img i base_context])
    (enumerate (doc_images content)) qa_pairs.

(** ** Pipeline driver

    The driver threads the processed-count, the log and the files written so
    far; an operation either returns or raises with a message. *)

(** What the renderers are given: the Word document and the JSON dump. *)
Inductive artifact :=
| WordOut (output_path title : str) (qa_pairs : list qa_pair)
| JsonOut (json_path original_file : str) (qa_pairs : list qa_pair)
          (raw_content : document).

Record world := {
  processed_count : nat;
  log : list entry;
  written : list artifact
}.

Inductive result (A : Type) :=
| Ok (a : A)
| Raised (msg : str).
Arguments Ok {A} a.
Arguments Raised {A} msg.

Definition M (A : Type) := world -> result A * world.

Definition ret {A} (a : A) : M A := fun w => (Ok a, w).

Definition bind {A B} (m : M A) (f : A -> M B) : M B := fun w =>
  match m w with
  | (Ok a, w') => f a w'
  | (Raised e, w') => (Raised e, w')
  end.

Notation "x <- m ;; k" := (bind m (fun x => k))
  (at level 61, m at next level, right associativity).
Notation "m ;;; k" := (bind m (fun _ => k))
  (at level 61, right associativity).

(** [try: m except Exception as e: handler(e)]; what [m] did before raising
    stays done. *)
Definition try_except {A} (m : M A) (handler : str -> M A) : M A := fun w =>
  match m w with
  | (Ok a, w') => (Ok a, w')
  | (Raised e, w') => handler e w'
  end.

Definition logger (lv : level) (msg : str) : M unit := fun w =>
  (Ok tt, {| processed_count := processed_count w;
             log := log w ++ [(lv, msg)];
             written := written w |}).

Definition log_all (es : list entry) : M unit := fun w =>
  (Ok tt, {| processed_count := processed_count w;
             log := log w ++ es;
             written := written w |}).

Definition get_count : M nat := fun w => (Ok (processed_count w), w).

Definition incr_count : M unit := fun w =>
  (Ok tt, {| processed_count := S (processed_count w);
             log := log w;
             written := written w |}).

(** Whether writing a path fails, and with which message. *)
Class Disk := { write_error : str -> option str }.

Definition artifact_path (a : artifact) : str :=
  match a with
  | WordOut p _ _ => p
  | JsonOut p _ _ _ => p
  end.

Definition write `{Disk} (a : artifact) : M unit := fun w =>
  match write_error (artifact_path a) with
  | Some e => (Raised e, w)
  | None =>
    (Ok tt, {| processed_count := processed_count w;
               log := log w;
               written := written w ++ [a] |})
  end.

(** The Word renderer as far as the driver depends on it: the document built
    from the pairs is saved at [output_path], which the disk may refuse.  Two
    things python-docx does while it builds the document are not part of this
    definition: it raises for text that XML does not allow, and for a picture
    it cannot add a warning is logged.  The properties that depend on either
    are stated for XML-compatible text ([plain_pairs]) and, where the log is
    given in full, for content without images. *)
Definition create_word_document `{Disk} (qa_pairs : list qa_pair)
    (output_path title : str) : M unit :=
  write (WordOut output_path title qa_pairs).

Definition save_processed_content `{Unicode} `{SetOrder} `{Disk}
    (output_dir : str) (original_file : path) (content : document) : M unit :=
  let qa_pairs := convert_to_qa_format content in
  if negb (truthy qa_pairs) then
    logger WARNING (u "文件 " ++ path_str original_file
                    ++ u " 没有生成有效的Q&A内容")
  else
    count <- get_count ;;
    let output_filename :=
      str_of_nat_02d count ++ u "_" ++ path_stem original_file
      ++ u "_processed.docx" in
    let output_path := output_dir ++ u "/" ++ output_filename in
    create_word_document qa_pairs output_path (doc_title content) ;;;
    let json_path :=
      output_dir ++ u "/" ++ str_of_nat_02d count ++ u "_"
      ++ path_stem original_file ++ u "_data.json" in
    write (JsonOut json_path (path_str original_file) qa_pairs content) ;;;
    logger INFO (u "已保存处理结果: " ++ output_path).

Definition supported_formats : list (str * adapter) :=
  [ (u ".docx", process_word); (u ".doc", process_word);
    (u ".pdf", process_pdf);
    (u ".xlsx", process_excel); (u ".xls", process_excel);
    (u ".pptx", process_powerpoint); (u ".ppt", process_powerpoint) ].

(** [supported_formats.get(ext)] *)
Fixpoint lookup_format (ext : str) (formats : list (str * adapter))
    : option adapter :=
  match formats with
  | [] => None
  | (k, a) :: rest => if str_eqb k ext then Some a else lookup_format ext rest
  end.

Definition process_single_document `{Unicode} `{SetOrder} `{Disk}
    (output_dir : str) (f : file) : M unit :=
  let file_ext := lower (path_suffix (file_path f)) in
  match lookup_format file_ext supported_formats with
  | Some processor =>
    let (content, records) := processor f in
    log_all records ;;;
    match content with
    | Some c => save_processed_content output_dir (file_path f) c
    | None => ret tt
    end
  | None => logger WARNING (u "不支持的文件格式: " ++ file_ext)
  end.

(** One file of the walk. *)
Definition process_file `{Unicode} `{SetOrder} `{Disk}
    (output_dir : str) (f : file) : M unit :=
  if is_some (lookup_format (lower (path_suffix (file_path f))) supported_formats)
  then
    try_except
      (logger INFO (u "处理文件: " ++ path_str (file_path f)) ;;;
       process_single_document output_dir f ;;;
       incr_count)
      (fun e =>
         logger ERROR (u "处理文件 " ++ path_str (file_path f) ++ u " 时出错: " ++ e))
  else ret tt.

Fixpoint for_each {A} (body : A -> M unit) (xs : list A) : M unit :=
  match xs with
  | [] => ret tt
  | x :: rest => body x ;;; for_each body rest
  end.

(** [files] are the files under [input_dir] in the order [os.walk] yields
    them. *)
Definition process_all_documents `{Unicode} `{SetOrder} `{Disk}
    (input_dir output_dir : str) (files : list file) : M unit :=
  logger INFO (u "开始处理目录: " ++ input_dir) ;;;
  for_each (process_file output_dir) files ;;;
  count <- get_count ;;
  logger INFO (u "处理完成，共处理 " ++ str_of_nat count ++ u " 个文件").

Definition start : world := {| processed_count := 0; log := []; written := [] |}.

(** ** Tables and environments for running examples *)

(** Agrees with the interpreter on basic Latin and on CJK ideographs. *)
Definition basic_unicode : Unicode :=
  {| isalnum := fun c =>
       in_range 48 57 c || in_range 65 90 c || in_range 97 122 c
       || in_range 19968 40959 c;
     lower := map (fun c => if in_range 65 90 c then c + 32 else c) |}.

(** The distinct elements, each at its first occurrence. *)
Fixpoint distinct (xs : list str) : list str :=
  match xs with
  | [] => []
  | x :: rest => x :: filter (fun y => negb (str_eqb x y)) (distinct rest)
  end.

(** Two iteration orders a set may have. *)
Definition first_seen : SetOrder := {| set_list := distinct |}.
Definition last_seen : SetOrder := {| set_list := fun xs => rev (distinct xs) |}.

(** Every write succeeds. *)
Definition good_disk : Disk := {| write_error := fun _ => None |}.

(** ** Second definitions, in the words of the specification *)

(** Every run of consecutive newlines collapsed to a single newline: a newline
    that is followed by another newline is dropped. *)
Fixpoint collapse_newlines (s : str) : str :=
  match s with
  | [] => []
  | c :: s' =>
    match s' with
    | d :: _ =>
      if (c =? NL) && (d =? NL) then collapse_newlines s'
      else c :: collapse_newlines s'
    | [] => [c]
    end
  end.

(** The most characters a pattern without repetition can consume. *)
Fixpoint max_width (r : regex) : option nat :=
  match r with
  | Eps | Bol | Eol | Ahead _ => Some 0%nat
  | Cls _ => Some 1%nat
  | Seq r1 r2 =>
    match max_width r1, max_width r2 with
    | Some a, Some b => Some (a + b)%nat
    | _, _ => None
    end
  | Alt r1 r2 =>
    match max_width r1, max_width r2 with
    | Some a, Some b => Some (Nat.max a b)
    | _, _ => None
    end
  | Rep _ _ _ => None
  | Grp r1 => max_width r1
  end.

(** The keywords of [sql_pattern], and what follows them. *)
Definition sql_keyword : regex :=
  alt_all [ilit (u "SELECT"); ilit (u "INSERT"); ilit (u "UPDATE");
           ilit (u "DELETE"); ilit (u "CREATE"); ilit (u "ALTER");
           ilit (u "DROP")].

Definition sql_rest : regex :=
  seq_all [Rep true 1 is_space; Rep false 0 any_char; lit (u ";")].

(** A section the table path and the text path both pass over. *)
Definition silent (s : section) : Prop :=
  sec_content s = [] /\ Forall (fun t => tbl_headers t = None) (sec_tables s).

(** The number of newlines a string starts with. *)
Fixpoint leading_newlines (s : str) : nat :=
  match s with
  | c :: s' => if c =? NL then S (leading_newlines s') else O
  | [] => O
  end.

(** The image a picture shape of slide [slide_num] (counted from 0) stands
    for, when it can be read. *)
Definition shape_picture (slide_num : nat) (sh : shape) : list image :=
  if shape_is_picture sh then
    match shape_image sh with
    | inr image =>
      [{| img_page := None; img_index := None;
          img_slide := Some (slide_num + 1)%nat;
          img_data := b64encode (pic_blob image);
          img_format := pic_ext image; img_relation_id := None |}]
    | inl _ => []
    end
  else [].

(** The pictures of a slide, in shape order. *)
Definition slide_pictures (it : nat * slide) : list image :=
  flat_map (shape_picture (fst it)) (snd it).

(** The text of a slide: the texts of its shapes, each ended by a newline. *)
Definition shape_line (sh : shape) : str :=
  match shape_text sh with
  | Some t => t ++ [NL]
  | None => []
  end.

Definition slide_text (shapes : slide) : str := flat_map shape_line shapes.

(** The section of a slide: none when its text is blank, and never with
    images. *)
Definition slide_section (it : nat * slide) : list section :=
  if truthy (strip (slide_text (snd it))) then
    [{| sec_heading := u "幻灯片 " ++ str_of_nat (fst it + 1);
        sec_content := slide_text (snd it);
        sec_tables := []; sec_images := [] |}]
  else [].

(** ** Inputs of the scenarios *)

Definition sheet1 : sheet :=
  {| sheet_name := u "Sheet1";
     sheet_rows := [[Some (VStr (u "Name")); Some (VStr (u "Age"))];
                    [Some (VStr (u "Bob")); Some (VStr (u "30"))]] |}.

Definition sheet1_rows : list (list str) :=
  [[u "Name"; u "Age"]; [u "Bob"; u "30"]].

Definition book (p : path) (e : str) : file :=
  {| file_path := p; file_data := ExcelFile [sheet1]; file_error := e |}.

Definition book_xlsx : file :=
  book {| path_dir := u "in"; path_name := u "book.xlsx" |} (u "").

(** A Word file with one ordinary paragraph. *)
Definition note (name : string) : file :=
  {| file_path := {| path_dir := u "in"; path_name := u name |};
     file_data :=
       WordFile {| word_body := [CT_P {| par_style := u "Normal";
                                         par_text := u "系统出现错误，请重启" |}];
                   word_rels := [] |};
     file_error := u "" |}.

(** A file with a supported extension that python-docx cannot open. *)
Definition corrupted (name : string) : file :=
  {| file_path := {| path_dir := u "in"; path_name := u name |};
     file_data := Unreadable;
     file_error := u "File is not a zip file" |}.

Definition batch : list file := [note "a.docx"; corrupted "b.docx"; note "c.docx"].

Definition a_picture : shape :=
  {| shape_text := None; shape_is_picture := true;
     shape_image := inr {| pic_blob := [137; 80; 78]; pic_ext := u "png" |} |}.

Definition a_text_box : shape :=
  {| shape_text := Some (u "Hi"); shape_is_picture := false;
     shape_image := inl (u "") |}.

(** A deck whose first slide has a picture and no text, and whose second
    slide has a text box and a picture. *)
Definition deck : file :=
  {| file_path := {| path_dir := u "in"; path_name := u "deck.pptx" |};
     file_data := PptFile [[a_picture]; [a_text_box; a_picture]];
     file_error := u "" |}.

(** Eleven distinct runs of CJK characters. *)
Definition eleven_runs : str :=
  u "天地 玄黄 宇宙 洪荒 日月 盈昃 辰宿 列张 寒来 暑往 秋收".

(** A table whose two columns have the same header. *)
Definition twin_headers : table :=
  {| tbl_headers := Some [u "A"; u "A"];
     tbl_rows := Some [[u "1"; u "2"]];
     tbl_data := None |}.

Definition heading_overview : paragraph :=
  {| par_style := u "Heading 1"; par_text := u "概述" |}.
Definition heading_install : paragraph :=
  {| par_style := u "Normal"; par_text := u "1. 安装" |}.
Definition plain_text : paragraph :=
  {| par_style := u "Normal"; par_text := u "双击安装包" |}.

(** ** Auxiliary notions for the further properties *)

(** The number of characters of class [p] a string starts with. *)
Fixpoint leading (p : char -> bool) (s : str) : nat :=
  match s with
  | c :: s' => if p c then S (leading p s') else O
  | [] => O
  end.

(** The class of [cjk_run]. *)
Definition is_cjk : char -> bool := in_range 19968 40959.

(** The image an image reference of page [page_num] (counted from 0) stands
    for: none when it cannot be read or has five components or more. *)
Definition pixmap_picture (page_num : nat) (it : nat * (str + pixmap))
    : list image :=
  match snd it with
  | inr pix =>
    if Nat.ltb (pix_n pix) 5 then
      [{| img_page := Some (page_num + 1)%nat; img_index := Some (fst it);
          img_slide := None; img_data := b64encode (pix_png pix);
          img_format := u "png"; img_relation_id := None |}]
    else []
  | inl _ => []
  end.

(** The pictures of a page, in the order of its image references. *)
Definition page_pictures (it : nat * pdf_page) : list image :=
  flat_map (pixmap_picture (fst it)) (enumerate (page_images (snd it))).

(** The section of a page: none when its text is blank. *)
Definition page_section (it : nat * pdf_page) : list section :=
  if truthy (strip (page_text (snd it))) then
    [{| sec_heading := u "第" ++ str_of_nat (fst it + 1) ++ u "页";
        sec_content := page_text (snd it);
        sec_tables := []; sec_images := [] |}]
  else [].

(** A relationship whose target reference mentions image. *)
Definition is_image_rel (rel : relationship) : bool :=
  contains (u "image") (rel_target_ref rel).

(** A heading of a section of [body] is empty or the stripped text of one of
    its heading paragraphs. *)
Definition heading_from (body : list body_element) (s : section) : Prop :=
  sec_heading s = []
  \/ exists p, In (CT_P p) body /\ is_heading_paragraph p = true
              /\ sec_heading s = strip (par_text p).

(** A file the driver hands to an adapter. *)
Definition supported `{Unicode} (f : file) : bool :=
  is_some (lookup_format (lower (path_suffix (file_path f))) supported_formats).

(** A scanned PDF: a first page without text whose image references are a
    picture with three components, one with five and one that cannot be read,
    and a second page with text. *)
Definition scan_pages : list pdf_page :=
  [ {| page_text := u "  ";
       page_images := [inr {| pix_n := 3; pix_png := [137; 80; 78; 71] |};
                       inr {| pix_n := 5; pix_png := [137; 80] |};
                       inl (u "bad xref")] |};
    {| page_text := u "安装步骤"; page_images := [] |} ].

Definition scan_pdf : file :=
  {| file_path := {| path_dir := u "in"; path_name := u "scan.PDF" |};
     file_data := PdfFile scan_pages;
     file_error := u "" |}.





(** ** base64 decoding, as [create_word_document] applies it to image data

    [base64.b64decode(s)] for a string: the string must be ASCII; then
    [binascii.a2b_base64] reads it leniently, skipping what is not in the
    alphabet and stopping at the padding that completes a quad. *)

(** The value of a character of the alphabet. *)
Definition b64_value (c : char) : option N :=
  if in_range 65 90 c then Some (c - 65)
  else if in_range 97 122 c then Some (c - 97 + 26)
  else if in_range 48 57 c then Some (c - 48 + 52)
  else if c =? 43 then Some 62
  else if c =? 47 then Some 63
  else None.

Fixpoint a2b_loop (s : str) (quad_pos : nat) (leftchar : N) (pads : nat)
    (out : bytes) : result bytes :=
  match s with
  | [] =>
    match quad_pos with
    | 0%nat => Ok out
    | 1%nat =>
      Raised (u "Invalid base64-encoded string: number of data characters ("
              ++ str_of_nat (Nat.div (List.length out) 3 * 4 + 1)
              ++ u ") cannot be 1 more than a multiple of 4")
    | _ => Raised (u "Incorrect padding")
    end
  | c :: s' =>
    if c =? 61 then
      if Nat.leb 2 quad_pos then
        if Nat.leb 4 (quad_pos + S pads) then Ok out
        else a2b_loop s' quad_pos leftchar (S pads) out
      else a2b_loop s' quad_pos leftchar pads out
    else
      match b64_value c with
      | None => a2b_loop s' quad_pos leftchar pads out
      | Some v =>
        match quad_pos with
        | 0%nat => a2b_loop s' 1 v 0 out
        | 1%nat =>
          a2b_loop s' 2 (N.land v 15) 0
            (out ++ [N.lor (N.shiftl leftchar 2) (N.shiftr v 4) mod 256])
        | 2%nat =>
          a2b_loop s' 3 (N.land v 3) 0
            (out ++ [N.lor (N.shiftl leftchar 4) (N.shiftr v 2) mod 256])
        | _ =>
          a2b_loop s' 0 0 0 (out ++ [N.lor (N.shiftl leftchar 6) v mod 256])
        end
      end
  end.

Definition b64decode (s : str) : result bytes :=
  if forallb (fun c => c <? 128) s then a2b_loop s 0 0 0 []
  else Raised (u "string argument should contain only ASCII characters").

(** The numbers below [k]. *)
Definition below (k : nat) : list N := map N.of_nat (seq 0 k).

(** The pairs of one section: the text pair when the text is not blank, then
    the pairs of its tables that have headers and rows. *)
Definition section_pairs `{Unicode} `{SetOrder} (base_context : str)
    (s : section) : list qa_pair :=
  (if truthy (strip (sec_content s)) then
     [extract_qa_from_text (sec_heading s) (sec_content s) base_context]
   else [])
  ++ flat_map (fun t => option_list
                          (extract_qa_from_table (sec_heading s) t base_context))
              (sec_tables s).

(** The pairs of the images of a document, numbered in list order. *)
Definition image_pairs (doc_title base_context : str) (images : list image)
    : list qa_pair :=
  map (fun it => create_image_qa doc_title (snd it) (fst it) base_context)
      (enumerate images).

(** The provenance string of a document. *)
Definition provenance (content : document) : str :=
  u "文档来源：" ++ doc_title content.

(** A Word document with one picture and one relationship that is none. *)
Definition manual : word_doc :=
  {| word_body := [CT_P plain_text];
     word_rels :=
       [{| rel_target_ref := u "media/image1.png";
           rel_blob := inr [137; 80; 78; 71];
           rel_rId := u "rId7" |};
        {| rel_target_ref := u "styles.xml";
           rel_blob := inr [60; 63];
           rel_rId := u "rId1" |}] |}.

(** Files the driver has no adapter for. *)
Definition strangers : list file :=
  [ {| file_path := {| path_dir := u "in"; path_name := u "notes.txt" |};
       file_data := Unreadable; file_error := u "" |};
    {| file_path := {| path_dir := u "in"; path_name := u ".docx" |};
       file_data := Unreadable; file_error := u "" |};
    {| file_path := {| path_dir := u "in"; path_name := u "README" |};
       file_data := Unreadable; file_error := u "" |} ].

(** ** Whitespace at the ends, in the words of the specification *)

(** The string does not begin with whitespace. *)
Definition starts_clean (s : str) : bool :=
  match s with
  | c :: _ => negb (is_space c)
  | [] => true
  end.

(** The string neither begins nor ends with whitespace. *)
Definition no_outer_space (s : str) : bool :=
  starts_clean s && starts_clean (rev s).

(** ** Text the outputs take *)












(** * Properties *)

(** ** Strings and set orders *)

Lemma str_eqb_eq (a b : str) : str_eqb a b = true <-> a = b.
Proof.
  revert b; induction a as [|x a IH]; intros [|y b]; simpl; split;
    try congruence; try reflexivity.
  - intros H. apply andb_true_iff in H as [Hx Hr].
    apply N.eqb_eq in Hx. apply IH in Hr. congruence.
  - intros H. injection H as -> ->. rewrite N.eqb_refl. simpl. now apply IH.
Qed.

Lemma str_eqb_refl (a : str) : str_eqb a a = true.
Proof. now apply str_eqb_eq. Qed.

Lemma distinct_In (xs : list str) (x : str) : In x (distinct xs) <-> In x xs.
Proof.
  induction xs as [|y xs IH]; simpl; [tauto|].
  rewrite filter_In, IH. split.
  - intros [H | [H _]]; auto.
  - intros [H | H]; auto.
    destruct (str_eqb y x) eqn:E.
    + left. now apply str_eqb_eq.
    + right. split; [assumption | reflexivity].
Qed.

Lemma distinct_NoDup (xs : list str) : NoDup (distinct xs).
Proof.
  induction xs as [|y xs IH]; simpl; constructor.
  - rewrite filter_In. intros [_ H]. now rewrite str_eqb_refl in H.
  - now apply NoDup_filter.
Qed.

Lemma first_seen_valid : valid_order first_seen.
Proof.
  intros xs; split; [apply distinct_NoDup | intros x; apply distinct_In].
Qed.

Lemma last_seen_valid : valid_order last_seen.
Proof.
  intros xs; split; simpl.
  - apply NoDup_rev, distinct_NoDup.
  - intros x. rewrite <- in_rev. apply distinct_In.
Qed.

(** Two valid orders list the same strings, the same number of times. *)
Lemma set_list_Permutation (o1 o2 : SetOrder) (xs ys : list str) :
  valid_order o1 -> valid_order o2 ->
  (forall x, In x xs <-> In x ys) ->
  Permutation (@set_list o1 xs) (@set_list o2 ys).
Proof.
  intros V1 V2 Hxy.
  destruct (V1 xs) as [N1 I1], (V2 ys) as [N2 I2].
  apply NoDup_Permutation; try assumption.
  intros x. rewrite I1, I2. apply Hxy.
Qed.

Lemma set_list_length (o : SetOrder) (xs : list str) :
  valid_order o -> List.length (@set_list o xs) = List.length (distinct xs).
Proof.
  intros V. apply Permutation_length.
  apply (set_list_Permutation (o1 := o) (o2 := first_seen)); trivial.
  - apply first_seen_valid.
  - tauto.
Qed.

(** ** Table rendering *)

(** C7: for headers A, B, the single row 1, 2 and heading X, the table path
    gives the answer "表格标题：X\n表格内容：\nA | B\n---|---\n1 | 2\n" and the
    question "关于X的详细信息", whatever the provenance string and the other keys
    of the table are. *)
Theorem table_answer_example (base_context : str) (data : option (list (list str))) :
  exists qa,
    extract_qa_from_table (u "X")
      {| tbl_headers := Some [u "A"; u "B"];
         tbl_rows := Some [[u "1"; u "2"]];
         tbl_data := data |} base_context = Some qa
    /\ qa_answer qa =
         u "表格标题：X" ++ [NL] ++ u "表格内容：" ++ [NL] ++ u "A | B" ++ [NL]
         ++ u "---|---" ++ [NL] ++ u "1 | 2" ++ [NL]
    /\ qa_question qa = u "关于X的详细信息"
    /\ qa_kind qa = TableQA.
Proof.
  eexists. split; [reflexivity|].
  repeat split; vm_compute; reflexivity.
Qed.

(** ** Question generalization *)

Lemma date_first :
  re_sub date_pattern (u "[日期]") (u "2023-05-01 小区102 出现错误")
  = u "[日期] 小区102 出现错误".
Proof. vm_compute. reflexivity. Qed.

Lemma digits_second :
  re_sub digits_pattern (u "[数字]") (u "[日期] 小区102 出现错误")
  = u "[日期] 小区[数字] 出现错误".
Proof. vm_compute. reflexivity. Qed.

Lemma estate_rule_idle :
  re_sub estate_pattern (u "[小区名称]") (u "[日期] 小区[数字] 出现错误")
  = u "[日期] 小区[数字] 出现错误".
Proof. vm_compute. reflexivity. Qed.

Lemma user_rule_idle `{Unicode} :
  re_sub user_pattern (u "[用户名]") (u "[日期] 小区[数字] 出现错误")
  = u "[日期] 小区[数字] 出现错误".
Proof. vm_compute. reflexivity. Qed.

Lemma no_prefix_yet :
  existsb (fun prefix => contains prefix (u "[日期] 小区[数字] 出现错误"))
          question_prefixes = false.
Proof. vm_compute. reflexivity. Qed.

(** C8: on "2023-05-01 小区102 出现错误" the date is replaced first, then the
    remaining digits, the 小区\d+ rule finds nothing any more, and with a section
    text that has 错误 but neither 设置 nor 配置 the result is
    "如何解决[日期] 小区[数字] 出现错误". *)
Theorem generalize_date_then_digits `{Unicode} (content : str) :
  contains (u "错误") content = true ->
  contains (u "设置") content = false ->
  contains (u "配置") content = false ->
  re_sub date_pattern (u "[日期]") (u "2023-05-01 小区102 出现错误")
    = u "[日期] 小区102 出现错误"
  /\ re_sub digits_pattern (u "[数字]") (u "[日期] 小区102 出现错误")
    = u "[日期] 小区[数字] 出现错误"
  /\ re_sub estate_pattern (u "[小区名称]") (u "[日期] 小区[数字] 出现错误")
    = u "[日期] 小区[数字] 出现错误"
  /\ generalize_question (u "2023-05-01 小区102 出现错误") content
    = u "如何解决" ++ u "[日期] 小区[数字] 出现错误".
Proof.
  intros Herr Hset Hconf.
  split; [apply date_first|].
  split; [apply digits_second|].
  split; [apply estate_rule_idle|].
  unfold generalize_question. cbv zeta.
  rewrite date_first, digits_second, estate_rule_idle, user_rule_idle.
  rewrite no_prefix_yet, Hset, Hconf, Herr. reflexivity.
Qed.

Lemma generalize_date_then_digits_witness :
  @generalize_question basic_unicode
    (u "2023-05-01 小区102 出现错误") (u "系统出现错误")
  = u "如何解决" ++ u "[日期] 小区[数字] 出现错误".
Proof.
  apply (@generalize_date_then_digits basic_unicode (u "系统出现错误"));
    vm_compute; reflexivity.
Defined.

(** ** Answer enhancement *)

Lemma sql_matches_example :
  re_findall sql_pattern (u "SELECT * FROM users;") = [u "SELECT"].
Proof. vm_compute. reflexivity. Qed.

Lemma no_steps_example : contains (u "步骤") (u "SELECT * FROM users;") = false.
Proof. vm_compute. reflexivity. Qed.

(** C1, on the code: for the answer "SELECT * FROM users;" the block under
    "相关SQL语句：" holds the keyword SELECT alone, which is what [re.findall]
    reports for a pattern with one group; the statement itself is not in any
    fenced block. *)
Theorem enhance_answer_select_keyword_only (base_context : str) :
  enhance_answer (u "SELECT * FROM users;") base_context
  = base_context ++ [NL; NL] ++ u "SELECT * FROM users;"
    ++ [NL; NL] ++ u "相关SQL语句：" ++ [NL]
    ++ u "```sql" ++ [NL] ++ u "SELECT" ++ [NL] ++ u "```" ++ [NL].
Proof.
  unfold enhance_answer. cbv zeta.
  rewrite sql_matches_example, no_steps_example.
  cbn [truthy fold_left]. unfold sql_block.
  repeat rewrite <- app_assoc. reflexivity.
Qed.

(** ** The workbook scenario *)

(** C2, as the code has it: the sheet "Sheet1" with the rows Name, Age and
    Bob, 30 gives one section headed "工作表: Sheet1" with no text and one table
    that carries the two rows and no headers, and the synthesizer emits no
    Q&A pair for it, since the table path needs headers. *)
Theorem workbook_section_without_qa `{Unicode} `{SetOrder} (p : path) (e : str) :
  exists doc,
    process_excel (book p e) = (Some doc, [])
    /\ doc_sections doc =
         [{| sec_heading := u "工作表: Sheet1";
             sec_content := [];
             sec_tables := [{| tbl_headers := None; tbl_rows := None;
                               tbl_data := Some sheet1_rows |}];
             sec_images := [] |}]
    /\ map (fun t => get_or_empty (tbl_headers t))
           (flat_map sec_tables (doc_sections doc)) = [[]]
    /\ convert_to_qa_format doc = [].
Proof.
  eexists. split; [reflexivity|].
  repeat split; vm_compute; reflexivity.
Qed.

(** The workbook of C2 yields no table-type pair with the keywords
    ["工作表: Sheet1"]. *)
Lemma workbook_qa_counterexample :
  ~ exists doc qa,
      fst (process_excel book_xlsx) = Some doc
      /\ @convert_to_qa_format basic_unicode first_seen doc = [qa]
      /\ qa_kind qa = TableQA
      /\ qa_keywords qa = [u "工作表: Sheet1"].
Proof.
  intros (doc & qa & Hdoc & Hqa & _).
  vm_compute in Hdoc. injection Hdoc as <-.
  vm_compute in Hqa. discriminate.
Qed.

(** ** The batch driver *)

(** A supported file whose adapter gives up is still counted: the adapter
    logs and returns nothing, so nothing is raised to the driver. *)
Lemma failed_adapter_is_counted `{Unicode} `{SetOrder} `{Disk}
    (output_dir : str) (f : file) (processor : adapter) (records : list entry)
    (w : world) :
  lookup_format (lower (path_suffix (file_path f))) supported_formats
    = Some processor ->
  processor f = (None, records) ->
  process_file output_dir f w =
    (Ok tt,
     {| processed_count := S (processed_count w);
        log := (log w ++ [(INFO, u "处理文件: " ++ path_str (file_path f))])
               ++ records;
        written := written w |}).
Proof.
  intros Hfmt Hproc.
  unfold process_file, process_single_document.
  rewrite Hfmt. cbn [is_some]. rewrite Hproc.
  reflexivity.
Qed.

(** C3, on the code: in the batch a.docx, b.docx, c.docx where b.docx cannot
    be opened, the error for b.docx is logged and a.docx and c.docx are
    written, but the final processed-count is 3, and the output of c.docx is
    numbered 02. *)
Theorem batch_counts_the_failed_file :
  let w := snd (@process_all_documents basic_unicode first_seen good_disk
                  (u "in") (u "out") batch start) in
  processed_count w = 3%nat
  /\ filter (fun r => match fst r with ERROR => true | _ => false end) (log w)
     = [(ERROR, u "处理Word文档 in/b.docx 时出错: File is not a zip file")]
  /\ map artifact_path (written w)
     = [u "out/00_a_processed.docx"; u "out/00_a_data.json";
        u "out/02_c_processed.docx"; u "out/02_c_data.json"]
  /\ last (log w) (INFO, []) = (INFO, u "处理完成，共处理 3 个文件").
Proof. vm_compute. repeat split; reflexivity. Qed.

(** ** The slide-deck adapter *)

Lemma ppt_shape_step (n : nat) (sh : shape) content images warnings :
  exists warnings',
    ppt_shape n (content, (images, warnings)) sh
    = (content ++ shape_line sh, (images ++ shape_picture n sh, warnings')).
Proof.
  unfold ppt_shape, shape_picture, shape_line.
  destruct (shape_text sh) as [t|], (shape_is_picture sh);
    try destruct (shape_image sh) as [e|image];
    eexists; rewrite ?app_nil_r; reflexivity.
Qed.

Lemma ppt_shapes_fold (n : nat) (shapes : slide) :
  forall content images warnings,
  exists warnings',
    fold_left (ppt_shape n) shapes (content, (images, warnings))
    = (content ++ slide_text shapes,
       (images ++ flat_map (shape_picture n) shapes, warnings')).
Proof.
  induction shapes as [|sh shapes IH]; intros content images warnings.
  - exists warnings. simpl. now rewrite !app_nil_r.
  - cbn [fold_left].
    destruct (ppt_shape_step n sh content images warnings) as [w1 E1].
    rewrite E1.
    destruct (IH (content ++ shape_line sh) (images ++ shape_picture n sh) w1)
      as [w' E2].
    exists w'. etransitivity; [exact E2|].
    unfold slide_text. cbn [flat_map]. now rewrite !app_assoc.
Qed.

Lemma ppt_slide_step (it : nat * slide) sections images warnings :
  exists warnings',
    ppt_slide (sections, (images, warnings)) it
    = (sections ++ slide_section it, (images ++ slide_pictures it, warnings')).
Proof.
  destruct it as [n shapes]. unfold ppt_slide.
  destruct (ppt_shapes_fold n shapes [] images warnings) as [w1 E1].
  cbn [app] in E1.
  destruct (fold_left (ppt_shape n) shapes _) as [c imgs] eqn:E.
  injection E1 as -> ->.
  exists w1. unfold slide_section, slide_pictures. cbn [fst snd].
  destruct (truthy (strip (slide_text shapes))); rewrite ?app_nil_r; reflexivity.
Qed.

Lemma ppt_slides_fold (its : list (nat * slide)) :
  forall sections images warnings,
  exists warnings',
    fold_left ppt_slide its (sections, (images, warnings))
    = (sections ++ flat_map slide_section its,
       (images ++ flat_map slide_pictures its, warnings')).
Proof.
  induction its as [|it its IH]; intros sections images warnings.
  - exists warnings. simpl. now rewrite !app_nil_r.
  - cbn [fold_left].
    destruct (ppt_slide_step it sections images warnings) as [w1 E1].
    rewrite E1.
    destruct (IH (sections ++ slide_section it) (images ++ slide_pictures it) w1)
      as [w' E2].
    exists w'. etransitivity; [exact E2|].
    cbn [flat_map]. now rewrite !app_assoc.
Qed.

Lemma slide_sections_have_no_images (its : list (nat * slide)) :
  Forall (fun s => sec_images s = []) (flat_map slide_section its).
Proof.
  apply Forall_forall. intros s Hs.
  apply in_flat_map in Hs as (it & _ & Hs).
  unfold slide_section in Hs.
  destruct (truthy (strip (slide_text (snd it)))); simpl in Hs;
    [destruct Hs as [<- | []]; reflexivity | contradiction].
Qed.

(** C4, as the code has it: every picture shape that can be read gives one
    image with the number of its slide, and all of them go to the images of
    the document, in slide order and whether or not their slide has text; the
    sections are those of the slides whose text is not blank, and none of
    them holds an image. *)
Theorem slide_pictures_go_to_the_document (p : path) (e : str)
    (slides : list slide) :
  exists doc warnings,
    process_powerpoint {| file_path := p; file_data := PptFile slides;
                          file_error := e |} = (Some doc, warnings)
    /\ doc_images doc = flat_map slide_pictures (enumerate slides)
    /\ doc_sections doc = flat_map slide_section (enumerate slides)
    /\ Forall (fun s => sec_images s = []) (doc_sections doc).
Proof.
  unfold process_powerpoint, ppt_content. cbn [file_data].
  destruct (ppt_slides_fold (enumerate slides) [] [] []) as [w ->].
  cbn [app]. do 2 eexists. split; [reflexivity|]. cbn [doc_images doc_sections].
  repeat split. apply slide_sections_have_no_images.
Qed.

(** In [deck] the picture of the text-less first slide is kept among the
    images of the document, and the section of the second slide holds no
    image although the slide has a picture. *)
Lemma slide_images_counterexample :
  exists doc,
    fst (process_powerpoint deck) = Some doc
    /\ map sec_heading (doc_sections doc) = [u "幻灯片 2"]
    /\ map sec_images (doc_sections doc) = [[]]
    /\ map img_slide (doc_images doc) = [Some 1%nat; Some 2%nat].
Proof. eexists. split; [reflexivity|]. vm_compute. repeat split. Qed.

(** ** Keywords *)

(** C5, as the code has it: two runs, each with its own set iteration order,
    return the same keywords up to order when the content has at most ten
    distinct CJK runs. *)
Theorem keywords_same_up_to_order `{Unicode} (o1 o2 : SetOrder) (content : str) :
  valid_order o1 -> valid_order o2 ->
  (List.length (distinct (important_words content)) <= 10)%nat ->
  Permutation (@extract_keywords _ o1 content) (@extract_keywords _ o2 content).
Proof.
  intros V1 V2 Hlen. unfold extract_keywords.
  apply set_list_Permutation; trivial.
  intros x.
  rewrite !firstn_all2 by (rewrite set_list_length by assumption; exact Hlen).
  rewrite !in_app_iff.
  destruct (V1 (important_words content)) as [_ I1].
  destruct (V2 (important_words content)) as [_ I2].
  rewrite I1, I2. tauto.
Qed.

Lemma keywords_same_up_to_order_witness :
  Permutation
    (@extract_keywords basic_unicode first_seen (u "重新登录 SQL 服务"))
    (@extract_keywords basic_unicode last_seen (u "重新登录 SQL 服务")).
Proof.
  apply (@keywords_same_up_to_order basic_unicode first_seen last_seen).
  - exact first_seen_valid.
  - exact last_seen_valid.
  - vm_compute. lia.
Defined.

(** With eleven distinct runs the two orders keep different ones. *)
Lemma keywords_order_counterexample :
  valid_order first_seen /\ valid_order last_seen
  /\ In (u "天地") (@extract_keywords basic_unicode first_seen eleven_runs)
  /\ ~ In (u "天地") (@extract_keywords basic_unicode last_seen eleven_runs).
Proof.
  split; [exact first_seen_valid|]. split; [exact last_seen_valid|].
  split.
  - vm_compute. auto.
  - vm_compute. intuition discriminate.
Qed.

(** C6, as the code has it: the keywords of a text pair have no duplicates;
    the keywords of a table pair are the headers followed by the heading, and
    those of an image pair are the title, 图片 and 图像, as lists. *)
Theorem keywords_deduplicated_on_text_path `{Unicode} (o : SetOrder) :
  valid_order o ->
  (forall heading content base_context,
     NoDup (qa_keywords (@extract_qa_from_text _ o heading content base_context)))
  /\ (forall heading t base_context qa,
        extract_qa_from_table heading t base_context = Some qa ->
        qa_keywords qa = get_or_empty (tbl_headers t) ++ [heading])
  /\ (forall doc_title img index base_context,
        qa_keywords (create_image_qa doc_title img index base_context)
        = [doc_title; u "图片"; u "图像"]).
Proof.
  intros V. split; [|split].
  - intros heading content base_context. simpl. apply V.
  - intros heading t base_context qa. unfold extract_qa_from_table.
    destruct (negb _ || negb _); [discriminate|].
    intros [= <-]. reflexivity.
  - reflexivity.
Qed.

Lemma keywords_deduplicated_on_text_path_witness :
  NoDup (qa_keywords (@extract_qa_from_text basic_unicode first_seen
                        (u "登录") (u "如何登录系统") (u "文档来源：手册"))).
Proof.
  apply (@keywords_deduplicated_on_text_path basic_unicode first_seen
           first_seen_valid).
Defined.

(** A table with two equal headers gives keywords with a duplicate. *)
Lemma table_keywords_counterexample :
  exists qa,
    extract_qa_from_table (u "X") twin_headers (u "文档来源：手册") = Some qa
    /\ qa_keywords qa = [u "A"; u "A"; u "X"]
    /\ ~ NoDup (qa_keywords qa).
Proof.
  eexists. split; [reflexivity|]. split; [reflexivity|].
  cbn [qa_keywords]. intros Hnd. inversion Hnd as [|x l Hnotin _].
  apply Hnotin. left. reflexivity.
Qed.

(** ** The text path *)

Lemma newlines_greedy (s : str) (i : nat) :
  rep_greedy (is_char NL) 0 i s None (fun i' _ g => Some (i', g))
  = Some ((i + leading_newlines s)%nat, None).
Proof.
  revert i; induction s as [|c s IH]; intros i; simpl.
  - now rewrite Nat.add_0_r.
  - unfold is_char. destruct (c =? NL).
    + rewrite IH. simpl. now rewrite Nat.add_succ_r.
    + now rewrite Nat.add_0_r.
Qed.

Lemma newlines_match_at (s : str) (i : nat) :
  match_at newlines i s =
  match leading_newlines s with
  | O => None
  | S n => Some ((i + S n)%nat, None)
  end.
Proof.
  unfold match_at, newlines. cbn [exec].
  destruct s as [|c s]; simpl; [reflexivity|].
  unfold is_char. destruct (c =? NL); [|reflexivity].
  rewrite newlines_greedy. simpl. now rewrite Nat.add_succ_r.
Qed.

Lemma collapse_run (s : str) :
  collapse_newlines (NL :: s)
  = NL :: collapse_newlines (skipn (leading_newlines s) s).
Proof.
  induction s as [|d s IH]; [reflexivity|].
  cbn [leading_newlines].
  destruct (d =? NL) eqn:E.
  - apply N.eqb_eq in E. subst d.
    change (collapse_newlines (NL :: NL :: s)) with (collapse_newlines (NL :: s)).
    rewrite IH. reflexivity.
  - cbn [collapse_newlines skipn]. rewrite E.
    replace (NL =? NL) with true by reflexivity. reflexivity.
Qed.

Lemma collapse_other (c : char) (s : str) :
  (c =? NL) = false -> collapse_newlines (c :: s) = c :: collapse_newlines s.
Proof.
  intros E. destruct s as [|d s]; [reflexivity|].
  cbn [collapse_newlines]. rewrite E. reflexivity.
Qed.

Lemma sub_newlines_scan (s : str) :
  forall i,
    sub_scan newlines [NL] 0 i s = collapse_newlines s
    /\ sub_scan newlines [NL] (leading_newlines s) i s
       = collapse_newlines (skipn (leading_newlines s) s).
Proof.
  induction s as [|c s IH]; intros i.
  - split; reflexivity.
  - assert (H0 : sub_scan newlines [NL] 0 i (c :: s) = collapse_newlines (c :: s)).
    { cbn [sub_scan]. rewrite newlines_match_at. cbn [leading_newlines].
      destruct (c =? NL) eqn:E.
      - apply N.eqb_eq in E. subst c.
        replace (Nat.eqb (i + S (leading_newlines s)) i) with false
          by (symmetry; apply Nat.eqb_neq; lia).
        replace (pred (i + S (leading_newlines s) - i)) with (leading_newlines s)
          by lia.
        rewrite (proj2 (IH (S i))), collapse_run. reflexivity.
      - rewrite (proj1 (IH (S i))), collapse_other by assumption. reflexivity. }
    split; [exact H0|].
    cbn [leading_newlines]. destruct (c =? NL) eqn:E.
    + cbn [sub_scan skipn]. apply IH.
    + exact H0.
Qed.

(** The cleaning step of the text path is the collapse of the claim. *)
Lemma clean_content_collapses (content : str) :
  clean_content content = collapse_newlines (strip content).
Proof. unfold clean_content, re_sub. apply sub_newlines_scan. Qed.

Lemma collapse_head (c : char) (s : str) :
  (c =? NL) = false -> exists t, collapse_newlines (c :: s) = c :: t.
Proof. intros E. rewrite collapse_other by assumption. eauto. Qed.

Lemma collapse_cons_cons (c d : char) (s : str) :
  collapse_newlines (c :: d :: s)
  = if (c =? NL) && (d =? NL) then collapse_newlines (d :: s)
    else c :: collapse_newlines (d :: s).
Proof. reflexivity. Qed.

Lemma contains_cons (needle : str) (c : char) (hay : str) :
  contains needle (c :: hay) = starts_with needle (c :: hay) || contains needle hay.
Proof. reflexivity. Qed.

(** After the collapse no two newlines are adjacent. *)
Lemma collapse_no_blank_line (s : str) :
  contains [NL; NL] (collapse_newlines s) = false.
Proof.
  induction s as [|c s IH]; [reflexivity|].
  destruct s as [|d s]; [cbn; now rewrite andb_false_r|].
  rewrite collapse_cons_cons.
  destruct ((c =? NL) && (d =? NL)) eqn:E; [exact IH|].
  rewrite contains_cons, IH, orb_false_r.
  cbn [starts_with]. fold NL.
  destruct (N.eqb_spec NL c) as [<-|Hc]; [|reflexivity].
  replace (NL =? NL) with true in E by reflexivity. cbn [andb] in E.
  destruct (collapse_head d s E) as [t ->].
  cbn [starts_with]. rewrite N.eqb_sym, E. reflexivity.
Qed.

Lemma sql_blocks_append (matches : list str) :
  forall enhanced, exists t, fold_left sql_block matches enhanced = enhanced ++ t.
Proof.
  induction matches as [|m matches IH]; intros enhanced; cbn [fold_left].
  - exists []. now rewrite app_nil_r.
  - destruct (IH (sql_block enhanced m)) as [t ->].
    unfold sql_block. rewrite <- app_assoc. eauto.
Qed.

Lemma step_lines_append (steps : list (nat * str)) :
  forall enhanced, exists t, fold_left step_line steps enhanced = enhanced ++ t.
Proof.
  induction steps as [|[i st] steps IH]; intros enhanced; cbn [fold_left].
  - exists []. now rewrite app_nil_r.
  - destruct (IH (step_line enhanced (i, st))) as [t ->].
    unfold step_line. rewrite <- app_assoc. eauto.
Qed.

(** The enhanced answer starts with the provenance, a blank line and the
    answer it was given. *)
Lemma enhance_answer_body (answer base_context : str) :
  exists appended,
    enhance_answer answer base_context
    = base_context ++ [NL; NL] ++ answer ++ appended.
Proof.
  unfold enhance_answer. cbv zeta.
  set (body := base_context ++ [NL; NL] ++ answer).
  assert (Hsql : exists t,
    (if truthy (re_findall sql_pattern answer)
     then fold_left sql_block (re_findall sql_pattern answer)
            (body ++ [NL; NL] ++ u "相关SQL语句：" ++ [NL])
     else body) = body ++ t).
  { destruct (truthy _).
    - destruct (sql_blocks_append (re_findall sql_pattern answer)
                  (body ++ [NL; NL] ++ u "相关SQL语句：" ++ [NL])) as [t ->].
      rewrite <- app_assoc. eauto.
    - exists []. now rewrite app_nil_r. }
  destruct Hsql as [t ->].
  assert (Hall : exists t', (if contains (u "步骤") answer
     then if truthy (re_findall step_pattern answer)
          then fold_left step_line (enumerate (re_findall step_pattern answer))
                 ((body ++ t) ++ [NL; NL] ++ u "操作步骤：" ++ [NL])
          else body ++ t
     else body ++ t) = body ++ t').
  { destruct (contains _ _); [destruct (truthy _)|]; eauto.
    destruct (step_lines_append (enumerate (re_findall step_pattern answer))
                ((body ++ t) ++ [NL; NL] ++ u "操作步骤：" ++ [NL])) as [t' ->].
    rewrite <- !app_assoc. eauto. }
  destruct Hall as [t' ->]. exists t'.
  unfold body. now rewrite <- !app_assoc.
Qed.

Lemma drop_space_split (s : str) :
  exists lead, s = lead ++ drop_space s /\ forallb is_space lead = true.
Proof.
  induction s as [|c s (lead & Hs & Hl)]; [exists []; split; reflexivity|].
  cbn [drop_space]. destruct (is_space c) eqn:E.
  - exists (c :: lead). cbn. rewrite E, Hl. split; [now f_equal | reflexivity].
  - exists []. split; reflexivity.
Qed.

Lemma drop_space_starts_clean (s : str) : starts_clean (drop_space s) = true.
Proof.
  induction s as [|c s IH]; [reflexivity|].
  cbn [drop_space]. destruct (is_space c) eqn:E; [exact IH|].
  cbn. now rewrite E.
Qed.

Lemma drop_space_keeps_last (x : str) (h : char) :
  is_space h = false -> exists m, drop_space (x ++ [h]) = m ++ [h].
Proof.
  intros Hh. induction x as [|c x (m & Hm)]; cbn [app drop_space].
  - rewrite Hh. exists []. reflexivity.
  - destruct (is_space c); [exists m; exact Hm | exists (c :: x); reflexivity].
Qed.

Lemma forallb_rev {A} (f : A -> bool) (l : list A) :
  forallb f l = true -> forallb f (rev l) = true.
Proof.
  rewrite !forallb_forall. intros H x Hx. apply H. now apply in_rev.
Qed.

(** What [strip] removes: whitespace before and behind, and all of it. *)
Lemma strip_decomposes (s : str) :
  exists lead trail,
    s = lead ++ strip s ++ trail
    /\ forallb is_space lead = true /\ forallb is_space trail = true
    /\ no_outer_space (strip s) = true.
Proof.
  unfold strip.
  destruct (drop_space_split s) as (lead & Hs & Hlead).
  destruct (drop_space_split (rev (drop_space s))) as (l2 & Hr & Hl2).
  exists lead, (rev l2). split; [|split; [assumption|split]].
  - rewrite <- rev_app_distr, <- Hr, rev_involutive. exact Hs.
  - now apply forallb_rev.
  - unfold no_outer_space. rewrite rev_involutive, drop_space_starts_clean.
    rewrite andb_true_r.
    pose proof (drop_space_starts_clean s) as Hh.
    destruct (drop_space s) as [|h t]; [reflexivity|].
    cbn [starts_clean] in Hh. apply negb_true_iff in Hh.
    cbn [rev]. destruct (@drop_space_keeps_last (rev t) h Hh) as [m ->].
    rewrite rev_unit. cbn. now rewrite Hh.
Qed.

Lemma clean_tail_unique (l1 l2 x y : str) (a b : char) :
  forallb is_space l1 = true -> forallb is_space l2 = true ->
  is_space a = false -> is_space b = false ->
  l1 ++ a :: x = l2 ++ b :: y -> a :: x = b :: y.
Proof.
  revert l2. induction l1 as [|c l1 IH]; intros l2 H1 H2 Ha Hb E.
  - destruct l2 as [|d l2]; [exact E|].
    cbn in E, H2. injection E as -> _. rewrite Ha in H2. discriminate.
  - destruct l2 as [|d l2].
    + cbn in E, H1. injection E as -> _. rewrite Hb in H1. discriminate.
    + cbn in E, H1, H2. injection E as _ E.
      apply andb_true_iff in H1 as [_ H1]. apply andb_true_iff in H2 as [_ H2].
      now apply (IH l2).
Qed.

Lemma spaces_have_no_clean_part (l t x : str) (a : char) (l' t' : str) :
  forallb is_space l = true -> forallb is_space t = true ->
  is_space a = false -> l ++ [] ++ t = l' ++ (a :: x) ++ t' -> False.
Proof.
  intros Hl Ht Ha E.
  assert (Hall : forallb is_space (l ++ [] ++ t) = true)
    by (cbn; rewrite forallb_app, Hl, Ht; reflexivity).
  rewrite E, forallb_app in Hall. apply andb_true_iff in Hall as [_ Hall].
  cbn in Hall. rewrite Ha in Hall. discriminate.
Qed.

(** The decomposition determines the middle part: there is one way only to
    take the whitespace off both ends. *)
Lemma stripped_part_unique (s l c t l' c' t' : str) :
  s = l ++ c ++ t -> s = l' ++ c' ++ t' ->
  forallb is_space l = true -> forallb is_space t = true ->
  forallb is_space l' = true -> forallb is_space t' = true ->
  no_outer_space c = true -> no_outer_space c' = true ->
  c = c'.
Proof.
  intros E E' Hl Ht Hl' Ht' Hc Hc'. rewrite E in E'. clear E s.
  unfold no_outer_space in Hc, Hc'.
  apply andb_true_iff in Hc as [Hc1 Hc2]. apply andb_true_iff in Hc' as [Hc1' Hc2'].
  destruct c as [|a x], c' as [|b y]; [reflexivity| | |].
  - exfalso. cbn [starts_clean] in Hc1'. apply negb_true_iff in Hc1'.
    exact (@spaces_have_no_clean_part l t y b l' t' Hl Ht Hc1' E').
  - exfalso. cbn [starts_clean] in Hc1. apply negb_true_iff in Hc1.
    exact (@spaces_have_no_clean_part l' t' x a l t Hl' Ht' Hc1 (eq_sym E')).
  - cbn [starts_clean] in Hc1, Hc1'.
    apply negb_true_iff in Hc1. apply negb_true_iff in Hc1'.
    cbn [app] in E'.
    pose proof (@clean_tail_unique l l' (x ++ t) (y ++ t') a b Hl Hl' Hc1 Hc1' E') as E2.
    apply (f_equal (@rev char)) in E2.
    change (a :: x ++ t) with ((a :: x) ++ t) in E2.
    change (b :: y ++ t') with ((b :: y) ++ t') in E2.
    rewrite !rev_app_distr in E2.
    destruct (rev (a :: x)) as [|a' x'] eqn:Ra;
      [apply (f_equal (@List.length char)) in Ra; rewrite length_rev in Ra;
       discriminate|].
    destruct (rev (b :: y)) as [|b' y'] eqn:Rb;
      [apply (f_equal (@List.length char)) in Rb; rewrite length_rev in Rb;
       discriminate|].
    cbn [starts_clean] in Hc2, Hc2'.
    apply negb_true_iff in Hc2. apply negb_true_iff in Hc2'.
    pose proof (@clean_tail_unique (rev t) (rev t') x' y' a' b'
                  (@forallb_rev _ _ _ Ht) (@forallb_rev _ _ _ Ht') Hc2 Hc2' E2) as E3.
    rewrite <- Ra, <- Rb in E3.
    apply (f_equal (@rev char)) in E3. now rewrite !rev_involutive in E3.
Qed.

(** C9: in the text path the text that is searched for a question, that is
    given to the generalizer and the keyword extractor, and that forms the
    body of the answer is the content without its leading and trailing
    whitespace (the content is whitespace, then a part that neither begins nor
    ends with whitespace, then whitespace again, and the part is what is
    kept) and with every run of newlines in it collapsed to one. *)
Theorem text_path_uses_collapsed_text `{Unicode} `{SetOrder}
    (heading content base_context : str) :
  exists lead core trail,
    content = lead ++ core ++ trail
    /\ forallb is_space lead = true /\ forallb is_space trail = true
    /\ no_outer_space core = true
    /\ core = strip content
    /\ let text := collapse_newlines core in
       let qa := extract_qa_from_text heading content base_context in
       qa_answer qa = enhance_answer text base_context
       /\ (exists appended,
             qa_answer qa = base_context ++ [NL; NL] ++ text ++ appended)
       /\ qa_question qa =
            generalize_question
              match specific_question question_patterns text with
              | Some q => q
              | None => if truthy heading then heading else u "相关问题"
              end text
       /\ qa_keywords qa = extract_keywords text
       /\ contains [NL; NL] text = false.
Proof.
  destruct (strip_decomposes content) as (lead & trail & Hc & Hl & Ht & Hn).
  exists lead, (strip content), trail.
  split; [exact Hc|]. split; [exact Hl|]. split; [exact Ht|].
  split; [exact Hn|]. split; [reflexivity|].
  intros text qa. subst qa. unfold extract_qa_from_text. cbv zeta.
  rewrite clean_content_collapses. fold text. cbn [qa_answer qa_question qa_keywords].
  repeat split.
  - apply enhance_answer_body.
  - apply collapse_no_blank_line.
Qed.

(** The body is not the verbatim content: blank lines and outer whitespace
    are gone. *)
Lemma collapsed_text_example :
  clean_content (u "  重启服务" ++ [NL; NL; NL] ++ u "再次登录" ++ [NL])
  = u "重启服务" ++ [NL] ++ u "再次登录".
Proof. vm_compute. reflexivity. Qed.

(** ** The text-document adapter *)

Lemma heading_after_heading (st : list section * section) (p1 p2 : paragraph) :
  truthy (strip (par_text p1)) = true -> is_heading_paragraph p1 = true ->
  truthy (strip (par_text p2)) = true -> is_heading_paragraph p2 = true ->
  word_element (word_element st (CT_P p1)) (CT_P p2) = word_element st (CT_P p2).
Proof.
  intros T1 H1 T2 H2. destruct st as [sections current].
  unfold word_element. rewrite T1, H1, T2, H2. reflexivity.
Qed.

(** C10: when a heading paragraph is directly followed by another heading
    paragraph, the section the first one opens has no content and no tables
    when the second arrives and is dropped: the sections of the document are
    those of the document without the first heading. *)
Theorem heading_without_body_is_lost (pre post : list body_element)
    (p1 p2 : paragraph) :
  truthy (strip (par_text p1)) = true -> is_heading_paragraph p1 = true ->
  truthy (strip (par_text p2)) = true -> is_heading_paragraph p2 = true ->
  snd (fold_left word_element (pre ++ [CT_P p1]) ([], new_section []))
    = new_section (strip (par_text p1))
  /\ has_body (new_section (strip (par_text p1))) = false
  /\ word_sections (pre ++ CT_P p1 :: CT_P p2 :: post)
     = word_sections (pre ++ CT_P p2 :: post).
Proof.
  intros T1 H1 T2 H2. split; [|split].
  - rewrite fold_left_app. cbn [fold_left].
    destruct (fold_left word_element pre _) as [sections current].
    unfold word_element. rewrite T1, H1. reflexivity.
  - reflexivity.
  - unfold word_sections. rewrite !fold_left_app. cbn [fold_left].
    rewrite heading_after_heading by assumption. reflexivity.
Qed.

Lemma heading_without_body_is_lost_witness :
  word_sections [CT_P heading_overview; CT_P heading_install; CT_P plain_text]
  = word_sections [CT_P heading_install; CT_P plain_text].
Proof.
  apply (@heading_without_body_is_lost [] [CT_P plain_text]
           heading_overview heading_install);
    vm_compute; reflexivity.
Defined.

(** In that document the heading 概述 is in no section. *)
Lemma lost_heading_example :
  map sec_heading
    (word_sections [CT_P heading_overview; CT_P heading_install; CT_P plain_text])
  = [u "1. 安装"].
Proof. vm_compute. reflexivity. Qed.

(** ** What [re.findall] reports for the SQL pattern *)

Lemma exec_bounded (r : regex) :
  forall w, max_width r = Some w ->
  forall i s g k m, exec r i s g k = Some m ->
  exists i' s' g', k i' s' g' = Some m /\ (i <= i' <= i + w)%nat.
Proof.
  induction r as [|p|r1 IH1 r2 IH2|r1 IH1 r2 IH2|gr lo p|r1 IH1|r1 IH1| |];
    intros w Hw i s g k m Hm; cbn [max_width] in Hw; cbn [exec] in Hm.
  - injection Hw as <-. exists i, s, g. split; [assumption | lia].
  - injection Hw as <-. destruct s as [|c s]; [discriminate|].
    destruct (p c); [|discriminate].
    exists (S i), s, g. split; [assumption | lia].
  - destruct (max_width r1) as [a|]; [|discriminate].
    destruct (max_width r2) as [b|]; [|discriminate].
    injection Hw as <-.
    destruct (IH1 a eq_refl _ _ _ _ _ Hm) as (i1 & s1 & g1 & H1 & B1).
    destruct (IH2 b eq_refl _ _ _ _ _ H1) as (i2 & s2 & g2 & H2 & B2).
    exists i2, s2, g2. split; [assumption | lia].
  - destruct (max_width r1) as [a|]; [|discriminate].
    destruct (max_width r2) as [b|]; [|discriminate].
    injection Hw as <-.
    unfold or_else in Hm. destruct (exec r1 i s g k) as [m1|] eqn:E1.
    + injection Hm as ->.
      destruct (IH1 a eq_refl _ _ _ _ _ E1) as (i1 & s1 & g1 & H1 & B1).
      exists i1, s1, g1. split; [assumption | lia].
    + destruct (IH2 b eq_refl _ _ _ _ _ Hm) as (i1 & s1 & g1 & H1 & B1).
      exists i1, s1, g1. split; [assumption | lia].
  - discriminate.
  - destruct (IH1 w Hw _ _ _ _ _ Hm) as (i1 & s1 & g1 & H1 & B1).
    exists i1, s1, (Some (firstn (i1 - i) s)). split; assumption.
  - injection Hw as <-.
    destruct (exec r1 i s g _) as [[e g']|]; [|discriminate].
    exists i, s, g'. split; [assumption | lia].
  - injection Hw as <-. destruct (Nat.eqb i 0); [|discriminate].
    exists i, s, g. split; [assumption | lia].
  - injection Hw as <-. exists i, s, g. split; [|lia].
    destruct s as [|c [|d s]]; try discriminate; trivial.
    destruct (c =? NL); [assumption | discriminate].
Qed.

Lemma rep_greedy_keeps_group (p : char -> bool) (s : str) :
  forall lo i g k m, rep_greedy p lo i s g k = Some m ->
  exists i' s', k i' s' g = Some m.
Proof.
  induction s as [|c s IH]; intros lo i g k m Hm; cbn [rep_greedy] in Hm.
  - destruct (Nat.eqb lo 0); [eauto | discriminate].
  - destruct (p c).
    + unfold or_else in Hm.
      destruct (rep_greedy p (pred lo) (S i) s g k) eqn:E.
      * injection Hm as ->. eapply IH, E.
      * destruct (Nat.eqb lo 0); [eauto | discriminate].
    + destruct (Nat.eqb lo 0); [eauto | discriminate].
Qed.

Lemma rep_lazy_keeps_group (p : char -> bool) (s : str) :
  forall lo i g k m, rep_lazy p lo i s g k = Some m ->
  exists i' s', k i' s' g = Some m.
Proof.
  induction s as [|c s IH]; intros lo i g k m Hm.
  - destruct lo; cbn in Hm; [|discriminate].
    unfold or_else in Hm. destruct (k i [] g) eqn:E; [|discriminate].
    injection Hm as ->. eauto.
  - destruct lo as [|lo]; cbn [rep_lazy Nat.eqb pred] in Hm.
    + unfold or_else in Hm. destruct (k i (c :: s) g) eqn:E.
      * injection Hm as ->. eauto.
      * destruct (p c); [eapply IH, Hm | discriminate].
    + destruct (p c); [eapply IH, Hm | discriminate].
Qed.

(** A pattern without a group hands on the group it was given. *)
Lemma exec_keeps_group (r : regex) :
  has_group r = false ->
  forall i s g k m, exec r i s g k = Some m ->
  exists i' s', k i' s' g = Some m.
Proof.
  induction r as [|p|r1 IH1 r2 IH2|r1 IH1 r2 IH2|gr lo p|r1 IH1|r1 IH1| |];
    intros Hg i s g k m Hm; cbn [has_group] in Hg; cbn [exec] in Hm.
  - eauto.
  - destruct s as [|c s]; [discriminate|]. destruct (p c); [eauto | discriminate].
  - apply orb_false_iff in Hg as [G1 G2].
    destruct (IH1 G1 _ _ _ _ _ Hm) as (i1 & s1 & H1).
    eapply IH2; eassumption.
  - apply orb_false_iff in Hg as [G1 G2].
    unfold or_else in Hm. destruct (exec r1 i s g k) eqn:E.
    + injection Hm as ->. eapply IH1; eassumption.
    + eapply IH2; eassumption.
  - destruct gr; [eapply rep_greedy_keeps_group | eapply rep_lazy_keeps_group];
      eassumption.
  - discriminate.
  - destruct (exec r1 i s g _) as [[e g']|] eqn:E; [|discriminate].
    destruct (IH1 Hg _ _ _ _ _ E) as (i1 & s1 & H1).
    injection H1 as _ ->. eauto.
  - destruct (Nat.eqb i 0); [eauto | discriminate].
  - destruct s as [|c [|d s]]; try discriminate; eauto.
    destruct (c =? NL); [eauto | discriminate].
Qed.

(** Each string [re.findall] reports comes from a match somewhere. *)
Lemma findall_reports_matches (r : regex) (s : str) :
  forall skip i x, In x (findall_scan r skip i s) ->
  exists i' s' e g,
    match_at r i' s' = Some (e, g) /\ x = reported r (firstn (e - i') s') g.
Proof.
  induction s as [|c s IH]; intros skip i x Hx.
  - destruct skip; cbn [findall_scan] in Hx; [|contradiction].
    destruct (match_at r i []) as [[e g]|] eqn:E; [|contradiction].
    destruct Hx as [<-|[]]. eauto 6.
  - destruct skip; cbn [findall_scan] in Hx; [|eapply IH, Hx].
    destruct (match_at r i (c :: s)) as [[e g]|] eqn:E; [|eapply IH, Hx].
    destruct Hx as [<-|Hx]; [eauto 6 | eapply IH, Hx].
Qed.

Lemma sql_pattern_parts : sql_pattern = Seq (Grp sql_keyword) sql_rest.
Proof. reflexivity. Qed.

(** X6: for every answer, each string reported for the SQL pattern, and so each
    fenced block of [enhance_answer], has at most the six characters of a
    keyword. *)
Lemma sql_matches_are_keywords (answer x : str) :
  In x (re_findall sql_pattern answer) -> (List.length x <= 6)%nat.
Proof.
  intros Hx. apply findall_reports_matches in Hx as (i & s & e & g & Hm & ->).
  unfold reported. replace (has_group sql_pattern) with true by reflexivity.
  unfold match_at in Hm. rewrite sql_pattern_parts in Hm. cbn [exec] in Hm.
  destruct (@exec_bounded sql_keyword 6 eq_refl _ _ _ _ _ Hm)
    as (i1 & s1 & g1 & H1 & B1).
  destruct (@exec_keeps_group sql_rest eq_refl _ _ _ _ _ H1) as (i2 & s2 & H2).
  injection H2 as _ <-.
  rewrite length_firstn. lia.
Qed.

(** ** Workbooks in general *)

Lemma excel_sections_silent (sheets : list sheet) :
  forall sections,
    Forall silent sections -> Forall silent (fold_left excel_sheet sheets sections).
Proof.
  induction sheets as [|sh sheets IH]; intros sections Hs; cbn [fold_left];
    [assumption|].
  apply IH. unfold excel_sheet. destruct (truthy (sheet_data sh)); [|assumption].
  apply Forall_app. split; [assumption|].
  repeat constructor.
Qed.

Lemma tables_without_headers `{Unicode} `{SetOrder}
    (heading base_context : str) (ts : list table) :
  Forall (fun t => tbl_headers t = None) ts ->
  forall qa_pairs,
    fold_left
      (fun qa_pairs t =>
         qa_pairs ++ option_list (extract_qa_from_table heading t base_context))
      ts qa_pairs = qa_pairs.
Proof.
  induction 1 as [|t ts Ht _ IH]; intros qa_pairs; cbn [fold_left];
    [reflexivity|].
  unfold extract_qa_from_table at 2. rewrite Ht. cbn.
  rewrite app_nil_r. apply IH.
Qed.

Lemma silent_sections_give_nothing `{Unicode} `{SetOrder}
    (base_context : str) (sections : list section) :
  Forall silent sections ->
  forall qa_pairs, fold_left (section_qa base_context) sections qa_pairs = qa_pairs.
Proof.
  induction 1 as [|s sections [Hc Ht] _ IH]; intros qa_pairs; cbn [fold_left];
    [reflexivity|].
  unfold section_qa at 2. rewrite Hc. cbn [strip drop_space rev truthy].
  rewrite tables_without_headers by assumption. apply IH.
Qed.

(** X18: no workbook yields a Q&A pair: [process_excel] stores the rows under the
    key data, and the table path reads headers and rows. *)
Lemma workbooks_yield_no_qa `{Unicode} `{SetOrder} (p : path) (e : str)
    (sheets : list sheet) :
  exists doc,
    process_excel {| file_path := p; file_data := ExcelFile sheets;
                     file_error := e |} = (Some doc, [])
    /\ convert_to_qa_format doc = [].
Proof.
  eexists. split; [reflexivity|].
  unfold convert_to_qa_format. cbn [doc_sections doc_images doc_title].
  rewrite silent_sections_give_nothing; [reflexivity|].
  apply excel_sections_silent. constructor.
Qed.

(** ** The batch goes on *)

Lemma process_file_returns `{Unicode} `{SetOrder} `{Disk}
    (output_dir : str) (f : file) (w : world) :
  fst (process_file output_dir f w) = Ok tt.
Proof.
  unfold process_file. destruct (is_some _); [|reflexivity].
  unfold try_except.
  match goal with |- context [match ?b with _ => _ end] => destruct b as [[[]|e] w'] end;
    reflexivity.
Qed.

(** X24: whatever happens to a file, the driver goes on to the next one and
    returns. *)
Lemma batch_never_aborts `{Unicode} `{SetOrder} `{Disk}
    (input_dir output_dir : str) (files : list file) (w : world) :
  fst (process_all_documents input_dir output_dir files w) = Ok tt.
Proof.
  unfold process_all_documents, bind, logger. cbn.
  match goal with |- context [for_each ?b files ?w0] => generalize w0 end.
  induction files as [|f files IH]; intros w0; cbn [for_each]; [reflexivity|].
  unfold bind at 1.
  pose proof (process_file_returns output_dir f w0) as Hf.
  destruct (process_file output_dir f w0) as [[[]|e] w1]; [|discriminate].
  apply IH.
Qed.

(** * Further properties *)

(** ** What a match consumes *)

Lemma rep_greedy_consumes (p : char -> bool) (s : str) :
  forall lo i g k m, rep_greedy p lo i s g k = Some m ->
  exists pre s',
    s = pre ++ s' /\ forallb p pre = true /\ (lo <= List.length pre)%nat
    /\ k (i + List.length pre)%nat s' g = Some m.
Proof.
  induction s as [|c s IH]; intros lo i g k m Hm; cbn [rep_greedy] in Hm.
  - destruct (Nat.eqb lo 0) eqn:E0; [|discriminate].
    apply Nat.eqb_eq in E0. exists [], []. cbn. rewrite Nat.add_0_r.
    repeat split; [lia | assumption].
  - assert (Hstop : (if Nat.eqb lo 0 then k i (c :: s) g else None) = Some m ->
                    exists pre s', c :: s = pre ++ s' /\ forallb p pre = true
                      /\ (lo <= List.length pre)%nat
                      /\ k (i + List.length pre)%nat s' g = Some m).
    { intros H. destruct (Nat.eqb lo 0) eqn:E0; [|discriminate].
      apply Nat.eqb_eq in E0. exists [], (c :: s). cbn. rewrite Nat.add_0_r.
      repeat split; [lia | assumption]. }
    destruct (p c) eqn:Pc; [|exact (Hstop Hm)].
    unfold or_else in Hm.
    destruct (rep_greedy p (pred lo) (S i) s g k) as [m'|] eqn:E;
      [|exact (Hstop Hm)].
    injection Hm as ->.
    destruct (IH _ _ _ _ _ E) as (pre & s' & -> & Hp & Hl & Hk).
    exists (c :: pre), s'. cbn [app forallb List.length]. rewrite Pc, Hp.
    rewrite Nat.add_succ_r. repeat split; [lia | exact Hk].
Qed.

Lemma rep_lazy_consumes (p : char -> bool) (s : str) :
  forall lo i g k m, rep_lazy p lo i s g k = Some m ->
  exists pre s',
    s = pre ++ s' /\ forallb p pre = true /\ (lo <= List.length pre)%nat
    /\ k (i + List.length pre)%nat s' g = Some m.
Proof.
  induction s as [|c s IH]; intros lo i g k m Hm.
  - destruct lo; cbn in Hm; [|discriminate].
    unfold or_else in Hm. destruct (k i [] g) eqn:E; [|discriminate].
    injection Hm as ->. exists [], []. cbn. rewrite Nat.add_0_r.
    repeat split; [lia | assumption].
  - assert (Hmore : (if p c then rep_lazy p (pred lo) (S i) s g k else None) = Some m ->
                    exists pre s', c :: s = pre ++ s' /\ forallb p pre = true
                      /\ (lo <= List.length pre)%nat
                      /\ k (i + List.length pre)%nat s' g = Some m).
    { intros H. destruct (p c) eqn:Pc; [|discriminate].
      destruct (IH _ _ _ _ _ H) as (pre & s' & -> & Hp & Hl & Hk).
      exists (c :: pre), s'. cbn [app forallb List.length]. rewrite Pc, Hp.
      rewrite Nat.add_succ_r. repeat split; [lia | exact Hk]. }
    destruct lo as [|lo]; cbn [rep_lazy Nat.eqb] in Hm; [|exact (Hmore Hm)].
    unfold or_else in Hm. destruct (k i (c :: s) g) eqn:E; [|exact (Hmore Hm)].
    injection Hm as ->. exists [], (c :: s). cbn. rewrite Nat.add_0_r.
    repeat split; [lia | assumption].
Qed.

(** Whenever the matcher succeeds, the continuation was entered after a
    prefix of the subject, at the position behind it. *)
Lemma exec_consumes (r : regex) :
  forall i s g k m, exec r i s g k = Some m ->
  exists pre s' g', s = pre ++ s' /\ k (i + List.length pre)%nat s' g' = Some m.
Proof.
  induction r as [|p|r1 IH1 r2 IH2|r1 IH1 r2 IH2|gr lo p|r1 IH1|r1 IH1| |];
    intros i s g k m Hm; cbn [exec] in Hm.
  - exists [], s, g. cbn. rewrite Nat.add_0_r. auto.
  - destruct s as [|c s]; [discriminate|]. destruct (p c); [|discriminate].
    exists [c], s, g. cbn. rewrite Nat.add_1_r. auto.
  - destruct (IH1 _ _ _ _ _ Hm) as (pre1 & s1 & g1 & -> & H1).
    destruct (IH2 _ _ _ _ _ H1) as (pre2 & s2 & g2 & -> & H2).
    exists (pre1 ++ pre2), s2, g2. rewrite length_app, Nat.add_assoc, <- app_assoc.
    auto.
  - unfold or_else in Hm. destruct (exec r1 i s g k) eqn:E.
    + injection Hm as ->. eapply IH1, E.
    + eapply IH2, Hm.
  - destruct gr.
    + destruct (rep_greedy_consumes _ _ _ _ _ _ Hm) as (pre & s' & -> & _ & _ & H).
      eauto.
    + destruct (rep_lazy_consumes _ _ _ _ _ _ Hm) as (pre & s' & -> & _ & _ & H).
      eauto.
  - destruct (IH1 _ _ _ _ _ Hm) as (pre1 & s1 & g1 & -> & H1). eauto.
  - destruct (exec r1 i s g _) as [[e g']|]; [|discriminate].
    exists [], s, g'. cbn. rewrite Nat.add_0_r. auto.
  - destruct (Nat.eqb i 0); [|discriminate].
    exists [], s, g. cbn. rewrite Nat.add_0_r. auto.
  - exists [], s, g. cbn. rewrite Nat.add_0_r. split; [reflexivity|].
    destruct s as [|c [|d s]]; try discriminate; trivial.
    destruct (c =? NL); [assumption | discriminate].
Qed.

(** A match spans a prefix of what is left of the subject. *)
Lemma match_at_consumes (r : regex) (i : nat) (s : str) (e : nat) (g : option str) :
  match_at r i s = Some (e, g) ->
  exists pre s', s = pre ++ s' /\ e = (i + List.length pre)%nat.
Proof.
  intros Hm. destruct (exec_consumes _ _ _ _ _ Hm) as (pre & s' & g' & -> & H).
  injection H as <- _. eauto.
Qed.

(** A match of a repeated class is a run of that class, of the least length
    at least. *)
Lemma match_at_class_run (p : char -> bool) (lo i : nat) (s : str) (e : nat)
    (g : option str) :
  match_at (Rep true lo p) i s = Some (e, g) ->
  exists pre s',
    s = pre ++ s' /\ forallb p pre = true /\ (lo <= List.length pre)%nat
    /\ e = (i + List.length pre)%nat.
Proof.
  unfold match_at. cbn [exec]. intros Hm.
  destruct (rep_greedy_consumes _ _ _ _ _ _ Hm) as (pre & s' & -> & Hp & Hl & H).
  injection H as <- _. eauto 6.
Qed.

(** Every match [re.findall] reports starts somewhere in the subject. *)
Lemma findall_in_subject (r : regex) (s : str) :
  forall skip i x, In x (findall_scan r skip i s) ->
  exists a s' i' e g,
    s = a ++ s' /\ match_at r i' s' = Some (e, g)
    /\ x = reported r (firstn (e - i') s') g.
Proof.
  induction s as [|c s IH]; intros skip i x Hx.
  - destruct skip; cbn [findall_scan] in Hx; [|contradiction].
    destruct (match_at r i []) as [[e g]|] eqn:E; [|contradiction].
    destruct Hx as [<-|[]]. exists [], [], i, e, g. auto.
  - assert (Htail : forall skip' i', In x (findall_scan r skip' i' s) ->
              exists a s' i'' e g, c :: s = a ++ s'
                /\ match_at r i'' s' = Some (e, g)
                /\ x = reported r (firstn (e - i'') s') g).
    { intros skip' i' H.
      destruct (IH _ _ _ H) as (a & s' & i'' & e & g & -> & Hm & Hr).
      exists (c :: a), s', i'', e, g. auto. }
    destruct skip; cbn [findall_scan] in Hx; [|eapply Htail, Hx].
    destruct (match_at r i (c :: s)) as [[e g]|] eqn:E; [|eapply Htail, Hx].
    destruct Hx as [<-|Hx]; [|eapply Htail, Hx].
    exists [], (c :: s), i, e, g. auto.
Qed.

(** [re.sub] only drops characters and puts in the replacement. *)
Lemma sub_scan_chars (P : char -> Prop) (r : regex) (repl s : str) :
  Forall P repl -> Forall P s ->
  forall skip i, Forall P (sub_scan r repl skip i s).
Proof.
  intros Hrepl Hs. induction Hs as [|c s Hc Hs IH]; intros skip i.
  - destruct skip; cbn [sub_scan]; [|constructor].
    destruct (match_at r i []) as [[e g]|]; [|constructor].
    rewrite app_nil_r. assumption.
  - destruct skip; cbn [sub_scan]; [|apply IH].
    destruct (match_at r i (c :: s)) as [[e g]|].
    + apply Forall_app. split; [assumption|].
      destruct (Nat.eqb e i); [constructor; [assumption | apply IH] | apply IH].
    + constructor; [assumption | apply IH].
Qed.

(** Where the pattern matches nowhere, [re.sub] returns the subject. *)
Lemma sub_scan_no_match (r : regex) (repl s : str) :
  (forall a s' i, s = a ++ s' -> match_at r i s' = None) ->
  forall i, sub_scan r repl 0 i s = s.
Proof.
  induction s as [|c s IH]; intros Hno i; cbn [sub_scan].
  - rewrite (Hno [] [] i eq_refl). reflexivity.
  - rewrite (Hno [] (c :: s) i eq_refl). f_equal. apply IH.
    intros a s' i' ->. apply (Hno (c :: a) s' i'). reflexivity.
Qed.

(** Where the pattern matches nowhere, [re.findall] finds nothing. *)
Lemma findall_no_match (r : regex) (s : str) :
  (forall a s' i, s = a ++ s' -> match_at r i s' = None) ->
  re_findall r s = [].
Proof.
  intros Hno. unfold re_findall.
  destruct (findall_scan r 0 0 s) as [|x l] eqn:E; [reflexivity|].
  assert (Hx : In x (findall_scan r 0 0 s)) by (rewrite E; left; reflexivity).
  apply findall_in_subject in Hx as (a & s' & i' & e & g & Hs & Hm & _).
  rewrite (Hno a s' i' Hs) in Hm. discriminate.
Qed.

(** ** Substituting a run of one class *)

Lemma class_greedy (p : char -> bool) (s : str) (i : nat) :
  rep_greedy p 0 i s None (fun i' _ g => Some (i', g))
  = Some ((i + leading p s)%nat, None).
Proof.
  revert i; induction s as [|c s IH]; intros i; simpl.
  - now rewrite Nat.add_0_r.
  - destruct (p c).
    + rewrite IH. simpl. now rewrite Nat.add_succ_r.
    + now rewrite Nat.add_0_r.
Qed.

Lemma class_match_at (p : char -> bool) (s : str) (i : nat) :
  match_at (Rep true 1 p) i s =
  match leading p s with
  | O => None
  | S n => Some ((i + S n)%nat, None)
  end.
Proof.
  unfold match_at. cbn [exec].
  destruct s as [|c s]; simpl; [reflexivity|].
  destruct (p c); [|reflexivity].
  rewrite class_greedy. simpl. now rewrite Nat.add_succ_r.
Qed.

(** After every run of a class is replaced by a text without that class, no
    character of the class is left. *)
Lemma sub_class_free (p : char -> bool) (repl s : str) :
  Forall (fun c => p c = false) repl ->
  forall i,
    Forall (fun c => p c = false) (sub_scan (Rep true 1 p) repl 0 i s)
    /\ Forall (fun c => p c = false)
         (sub_scan (Rep true 1 p) repl (leading p s) i s).
Proof.
  intros Hrepl. induction s as [|c s IH]; intros i.
  - split; cbn; constructor.
  - assert (H0 : Forall (fun c => p c = false)
                   (sub_scan (Rep true 1 p) repl 0 i (c :: s))).
    { cbn [sub_scan]. rewrite class_match_at. cbn [leading].
      destruct (p c) eqn:Pc.
      - replace (Nat.eqb (i + S (leading p s)) i) with false
          by (symmetry; apply Nat.eqb_neq; lia).
        replace (pred (i + S (leading p s) - i)) with (leading p s) by lia.
        apply Forall_app. split; [assumption | apply IH].
      - constructor; [assumption | apply IH]. }
    split; [exact H0|].
    cbn [leading]. destruct (p c) eqn:Pc; [|exact H0].
    cbn [sub_scan]. apply IH.
Qed.

(** A pattern that ends in a run of a class matches only where a character
    of the class is. *)
Lemma needs_class (r : regex) (p : char -> bool) (i : nat) (s : str)
    (m : nat * option str) :
  match_at (Seq r (Rep true 1 p)) i s = Some m ->
  exists c, In c s /\ p c = true.
Proof.
  unfold match_at. cbn [exec]. intros Hm.
  destruct (exec_consumes _ _ _ _ _ Hm) as (pre1 & s1 & g1 & -> & H1).
  destruct (rep_greedy_consumes _ _ _ _ _ _ H1) as (pre2 & s2 & -> & Hp & Hl & _).
  destruct pre2 as [|d pre2]; [cbn in Hl; lia|].
  exists d. split.
  - apply in_or_app. right. left. reflexivity.
  - cbn in Hp. now apply andb_true_iff in Hp.
Qed.

Lemma no_digit_check (s : str) :
  forallb (fun c => negb (is_digit c)) s = true ->
  Forall (fun c => is_digit c = false) s.
Proof.
  intros H. apply Forall_forall. intros c Hc.
  rewrite forallb_forall in H. specialize (H c Hc).
  now apply negb_true_iff in H.
Qed.

Lemma digits_pass_leaves_no_digit (question : str) :
  Forall (fun c => is_digit c = false)
         (re_sub digits_pattern (u "[数字]") question).
Proof.
  unfold re_sub, digits_pattern. apply sub_class_free.
  apply no_digit_check. vm_compute. reflexivity.
Qed.

Lemma estate_rule_idle_without_digits (repl s : str) :
  Forall (fun c => is_digit c = false) s ->
  re_sub estate_pattern repl s = s.
Proof.
  intros Hs. unfold re_sub. apply sub_scan_no_match.
  intros a s' i ->. destruct (match_at estate_pattern i s') as [m|] eqn:E;
    [|reflexivity].
  apply needs_class in E as (c & Hc & Hd).
  rewrite Forall_forall in Hs.
  rewrite (Hs c) in Hd by (apply in_or_app; right; exact Hc). discriminate.
Qed.

(** ** Question generalization in general *)

(** X1: the substitution of 小区\d+ never changes the question: it runs after the
    digit runs have been replaced, and needs a digit. *)
Theorem estate_rule_never_fires (question repl : str) :
  re_sub estate_pattern repl (re_sub digits_pattern (u "[数字]") question)
  = re_sub digits_pattern (u "[数字]") question.
Proof.
  apply estate_rule_idle_without_digits, digits_pass_leaves_no_digit.
Qed.

(** X2: the generalized question holds no decimal digit, whatever the question
    and the section text are. *)
Theorem generalized_question_has_no_digit `{Unicode} (question content : str) :
  Forall (fun c => is_digit c = false) (generalize_question question content).
Proof.
  unfold generalize_question. cbv zeta.
  assert (HG : Forall (fun c => is_digit c = false)
    (re_sub user_pattern (u "[用户名]")
       (re_sub estate_pattern (u "[小区名称]")
          (re_sub digits_pattern (u "[数字]")
             (re_sub date_pattern (u "[日期]") question))))).
  { unfold re_sub at 1 2.
    apply sub_scan_chars; [apply no_digit_check; vm_compute; reflexivity|].
    apply sub_scan_chars; [apply no_digit_check; vm_compute; reflexivity|].
    apply digits_pass_leaves_no_digit. }
  destruct (negb _); [|exact HG].
  destruct (_ || _);
    [apply Forall_app; split;
       [apply no_digit_check; vm_compute; reflexivity | exact HG]|].
  destruct (_ || _);
    [apply Forall_app; split;
       [apply no_digit_check; vm_compute; reflexivity | exact HG]|].
  destruct (_ || _);
    [apply Forall_app; split;
       [apply no_digit_check; vm_compute; reflexivity | exact HG]|].
  exact HG.
Qed.

Lemma starts_with_app (p x : str) : starts_with p (p ++ x) = true.
Proof.
  induction p as [|c p IH]; [destruct x; reflexivity|].
  cbn. now rewrite N.eqb_refl, IH.
Qed.

Lemma contains_at_start (p x : str) : contains p (p ++ x) = true.
Proof.
  destruct (p ++ x) eqn:E; cbn; rewrite <- E, starts_with_app; reflexivity.
Qed.

Lemma how_prefixed (tail g : str) :
  existsb (fun prefix => contains prefix ((u "如何" ++ tail) ++ g)) question_prefixes
  = true.
Proof.
  unfold question_prefixes. cbn [existsb].
  rewrite <- app_assoc, contains_at_start. reflexivity.
Qed.

(** X3: when the section text mentions one of 设置, 配置, 错误, 故障, 步骤, 流程, the
    generalized question contains one of the question words 如何, 怎样, 什么,
    为什么, 问题. *)
Theorem generalized_question_has_question_word `{Unicode} (question content : str) :
  existsb (fun trigger => contains trigger content)
    [u "设置"; u "配置"; u "错误"; u "故障"; u "步骤"; u "流程"] = true ->
  existsb (fun prefix => contains prefix (generalize_question question content))
    question_prefixes = true.
Proof.
  intros Htrig. unfold generalize_question. cbv zeta.
  set (G := re_sub user_pattern _ _).
  destruct (existsb (fun prefix => contains prefix G) question_prefixes) eqn:E;
    cbn [negb]; [exact E|].
  cbn [existsb] in Htrig.
  destruct (contains (u "设置") content); cbn [orb] in *;
    [exact (how_prefixed [] G)|].
  destruct (contains (u "配置") content); cbn [orb] in *;
    [exact (how_prefixed [] G)|].
  destruct (contains (u "错误") content); cbn [orb] in *;
    [exact (how_prefixed (u "解决") G)|].
  destruct (contains (u "故障") content); cbn [orb] in *;
    [exact (how_prefixed (u "解决") G)|].
  destruct (contains (u "步骤") content); cbn [orb] in *;
    [exact (how_prefixed (u "进行") G)|].
  destruct (contains (u "流程") content); cbn [orb] in *;
    [exact (how_prefixed (u "进行") G) | discriminate].
Qed.

Lemma generalized_question_has_question_word_witness :
  existsb (fun prefix =>
             contains prefix
               (@generalize_question basic_unicode (u "打印机 3 号") (u "按步骤操作")))
    question_prefixes = true.
Proof.
  apply (@generalized_question_has_question_word basic_unicode).
  vm_compute. reflexivity.
Defined.

(** ** Answer enhancement in general *)

Lemma sql_rest_parts :
  sql_rest = Seq (Rep true 1 is_space)
                 (Seq (Rep false 0 any_char) (Cls (is_char 59))).
Proof. reflexivity. Qed.

(** A match of the SQL pattern ends in a semicolon of the subject. *)
Lemma sql_match_needs_semicolon (i : nat) (s : str) (m : nat * option str) :
  match_at sql_pattern i s = Some m -> In 59 s.
Proof.
  unfold match_at. rewrite sql_pattern_parts, sql_rest_parts. cbn [exec].
  intros Hm.
  destruct (exec_consumes _ _ _ _ _ Hm) as (pre1 & s1 & g1 & -> & H1).
  destruct (rep_greedy_consumes _ _ _ _ _ _ H1) as (pre2 & s2 & -> & _ & _ & H2).
  destruct (rep_lazy_consumes _ _ _ _ _ _ H2) as (pre3 & s3 & -> & _ & _ & H3).
  destruct s3 as [|c s3]; [discriminate|].
  unfold is_char in H3. destruct (N.eqb_spec c 59) as [->|]; [|discriminate].
  repeat (apply in_or_app; right). left. reflexivity.
Qed.

(** X4: an answer with no semicolon and without 步骤 is only given its provenance:
    nothing is appended. *)
Theorem enhance_answer_plain (answer base_context : str) :
  ~ In 59 answer ->
  contains (u "步骤") answer = false ->
  enhance_answer answer base_context = base_context ++ [NL; NL] ++ answer.
Proof.
  intros Hsemi Hstep. unfold enhance_answer. cbv zeta.
  rewrite Hstep, findall_no_match; [reflexivity|].
  intros a s' i ->. destruct (match_at sql_pattern i s') as [m|] eqn:E;
    [|reflexivity].
  exfalso. apply Hsemi, in_or_app. right.
  exact (sql_match_needs_semicolon _ _ E).
Qed.

Lemma enhance_answer_plain_witness :
  enhance_answer (u "重启服务后再次登录") (u "文档来源：手册")
  = u "文档来源：手册" ++ [NL; NL] ++ u "重启服务后再次登录".
Proof.
  apply enhance_answer_plain.
  - vm_compute. intuition discriminate.
  - vm_compute. reflexivity.
Defined.

(** X5: whatever is appended, the enhanced answer begins with the provenance, an
    empty line and the answer as it was given. *)
Theorem enhance_answer_keeps_answer (answer base_context : str) :
  firstn (List.length base_context + 2 + List.length answer)
         (enhance_answer answer base_context)
  = base_context ++ [NL; NL] ++ answer.
Proof.
  destruct (enhance_answer_body answer base_context) as [appended ->].
  replace (base_context ++ [NL; NL] ++ answer ++ appended)
    with ((base_context ++ [NL; NL] ++ answer) ++ appended)
    by (now rewrite <- !app_assoc).
  rewrite firstn_app.
  replace (List.length base_context + 2 + List.length answer
           - List.length (base_context ++ [NL; NL] ++ answer))%nat with O
    by (rewrite !length_app; cbn; lia).
  rewrite firstn_all2 by (rewrite !length_app; cbn; lia).
  cbn [firstn]. now rewrite app_nil_r.
Qed.

(** ** Keywords in general *)

(** Each string found for [cjk_run] is a piece of the content made of at
    least two CJK characters. *)
Lemma important_words_are_runs (content x : str) :
  In x (important_words content) ->
  forallb is_cjk x = true /\ (2 <= List.length x)%nat
  /\ exists a b, content = a ++ x ++ b.
Proof.
  unfold important_words, re_findall. intros Hx.
  apply findall_in_subject in Hx as (a & s' & i & e & g & -> & Hm & ->).
  apply match_at_class_run in Hm as (pre & rest & -> & Hp & Hl & ->).
  unfold reported. cbn [cjk_run has_group].
  replace (i + List.length pre - i)%nat with (List.length pre + 0)%nat by lia.
  rewrite firstn_app_2. cbn [firstn]. rewrite app_nil_r.
  repeat split; try assumption. eauto.
Qed.

Lemma in_first {A} (n : nat) (l : list A) (x : A) : In x (firstn n l) -> In x l.
Proof.
  intros Hx. rewrite <- (firstn_skipn n l). apply in_or_app. now left.
Qed.

(** X7: a keyword is an entry of the two fixed lists or a run of at least two CJK
    characters of the content. *)
Theorem keywords_come_from_lists_or_content `{Unicode} (o : SetOrder)
    (content k : str) :
  valid_order o ->
  In k (@extract_keywords _ o content) ->
  In k (tech_keywords ++ action_keywords)
  \/ (forallb is_cjk k = true /\ (2 <= List.length k)%nat
      /\ exists a b, content = a ++ k ++ b).
Proof.
  intros V Hk. unfold extract_keywords in Hk.
  apply (proj1 (proj2 (V _) _)) in Hk. apply in_app_or in Hk as [Hk|Hk].
  - left. unfold found_keywords in Hk. now apply filter_In in Hk.
  - right. apply important_words_are_runs.
    apply in_first in Hk. apply (proj1 (proj2 (V _) _)) in Hk. exact Hk.
Qed.

Lemma keywords_come_from_lists_or_content_witness :
  In (u "SQL") (tech_keywords ++ action_keywords)
  \/ (forallb is_cjk (u "SQL") = true /\ (2 <= List.length (u "SQL"))%nat
      /\ exists a b, u "请登录 SQL 服务器" = a ++ u "SQL" ++ b).
Proof.
  apply (@keywords_come_from_lists_or_content basic_unicode first_seen).
  - exact first_seen_valid.
  - vm_compute. auto.
Defined.

(** X8: at most 40 keywords are returned: the 30 entries of the fixed lists and
    ten runs. *)
Theorem keywords_at_most_forty `{Unicode} (o : SetOrder) (content : str) :
  valid_order o ->
  (List.length (@extract_keywords _ o content) <= 40)%nat.
Proof.
  intros V. unfold extract_keywords.
  destruct (V (found_keywords content
               ++ firstn 10 (@set_list o (important_words content)))) as [Hnd Hin].
  etransitivity.
  - apply NoDup_incl_length; [exact Hnd|]. intros x Hx. exact (proj1 (Hin x) Hx).
  - rewrite length_app.
    assert (List.length (found_keywords content) <= 30)%nat.
    { unfold found_keywords.
      etransitivity; [apply filter_length_le|]. vm_compute. lia. }
    pose proof (firstn_le_length 10 (@set_list o (important_words content))).
    pose proof (length_firstn 10 (@set_list o (important_words content))).
    lia.
Qed.

Lemma keywords_at_most_forty_witness :
  (List.length (@extract_keywords basic_unicode last_seen eleven_runs) <= 40)%nat.
Proof.
  apply (@keywords_at_most_forty basic_unicode last_seen), last_seen_valid.
Defined.

(** ** The text-document adapter in general *)

Lemma fold_left_invariant {A B} (I : A -> Prop) (f : A -> B -> A) (l : list B) :
  (forall a b, In b l -> I a -> I (f a b)) ->
  forall a, I a -> I (fold_left f l a).
Proof.
  induction l as [|b l IH]; intros Hstep a Ha; cbn [fold_left]; [assumption|].
  apply IH.
  - intros a' b' Hb'. apply Hstep. now right.
  - apply Hstep; [now left | assumption].
Qed.

Lemma flush_Forall (P : section -> Prop) (sections : list section)
    (current : section) :
  Forall P sections -> (has_body current = true -> P current) ->
  Forall P (flush sections current).
Proof.
  intros Hs Hc. unfold flush. destruct (has_body current); [|assumption].
  apply Forall_app. split; [assumption|]. constructor; auto.
Qed.

(** X9: every section of a Word document has text or a table: a heading with
    nothing under it gives no section. *)
Theorem word_sections_have_body (body : list body_element) :
  Forall (fun s => has_body s = true) (word_sections body).
Proof.
  unfold word_sections.
  assert (Hinv : Forall (fun s => has_body s = true)
                   (fst (fold_left word_element body ([], new_section [])))).
  { apply fold_left_invariant with
      (I := fun st => Forall (fun s => has_body s = true) (fst st));
      [|constructor].
    intros [sections current] el _ Hs. cbn [fst] in Hs. unfold word_element.
    destruct el as [p|rows|]; cbn [fst]; try assumption.
    destruct (truthy (strip (par_text p))); [|assumption].
    destruct (is_heading_paragraph p); cbn [fst]; [|assumption].
    apply flush_Forall; auto. }
  destruct (fold_left word_element body _) as [sections current].
  apply flush_Forall; auto.
Qed.

Lemma tl_snoc {A} (P : A -> Prop) (l : list A) (a b : A) :
  Forall P (tl (l ++ [a])) -> P b -> Forall P (tl ((l ++ [a]) ++ [b])).
Proof.
  intros Ht Hb. destruct l as [|x l]; cbn [app tl] in *.
  - constructor; [assumption | constructor].
  - apply Forall_app. split; [assumption | constructor; [assumption | constructor]].
Qed.

Lemma tl_new_last {A} (P : A -> Prop) (l : list A) (a b : A) :
  Forall P (tl (l ++ [a])) -> (P a -> P b) -> Forall P (tl (l ++ [b])).
Proof.
  intros Ht Hb. destruct l as [|x l]; cbn [app tl] in *; [constructor|].
  apply Forall_app in Ht as [Hl Ha]. apply Forall_app. split; [assumption|].
  inversion Ha. constructor; auto.
Qed.

Lemma tl_other_last {A} (P : A -> Prop) (l : list A) (a b : A) :
  Forall P (tl (l ++ [a])) -> P b -> Forall P (tl (l ++ [b])).
Proof.
  intros Ht Hb. destruct l as [|x l]; cbn [app tl] in *; [constructor|].
  apply Forall_app in Ht as [Hl _]. apply Forall_app. split; [assumption|].
  constructor; [assumption | constructor].
Qed.

Lemma tl_without_last {A} (P : A -> Prop) (l : list A) (a : A) :
  Forall P (tl (l ++ [a])) -> Forall P (tl l).
Proof.
  intros Ht. destruct l as [|x l]; cbn [app tl] in *; [constructor|].
  now apply Forall_app in Ht as [Hl _].
Qed.

(** X10: the headings survive as they are read: a heading is empty or the stripped
    text of a heading paragraph, and only the first section can have an empty
    heading. *)
Theorem word_headings_come_from_heading_paragraphs (body : list body_element) :
  Forall (heading_from body) (word_sections body)
  /\ Forall (fun s => truthy (sec_heading s) = true) (tl (word_sections body)).
Proof.
  unfold word_sections.
  set (I := fun st : list section * section =>
    Forall (heading_from body) (fst st) /\ heading_from body (snd st)
    /\ Forall (fun s => truthy (sec_heading s) = true) (tl (fst st ++ [snd st]))).
  assert (Hinv : I (fold_left word_element body ([], new_section []))).
  { apply fold_left_invariant.
    - intros [sections current] el Hel (Hs & Hc & Ht). cbn [fst snd] in *.
      unfold word_element.
      destruct el as [p|rows|]; try (repeat split; assumption).
      + destruct (truthy (strip (par_text p))) eqn:Tp;
          [|repeat split; assumption].
        destruct (is_heading_paragraph p) eqn:Hp.
        * unfold I. cbn [fst snd]. split; [|split].
          -- apply flush_Forall; auto.
          -- right. exists p. auto.
          -- unfold flush. destruct (has_body current).
             ++ apply tl_snoc; assumption.
             ++ eapply tl_other_last; [exact Ht | exact Tp].
        * unfold I. cbn [fst snd]. repeat split; try assumption.
          eapply tl_new_last; [exact Ht | auto].
      + unfold I. cbn [fst snd]. repeat split; try assumption.
        eapply tl_new_last; [exact Ht | auto].
    - unfold I. cbn. repeat split; try constructor. reflexivity. }
  destruct (fold_left word_element body _) as [sections current].
  destruct Hinv as (Hs & Hc & Ht). cbn [fst snd] in *. split.
  - apply flush_Forall; auto.
  - unfold flush. destruct (has_body current); [assumption|].
    eapply tl_without_last, Ht.
Qed.

(** X11: a table of a Word document gives a Q&A pair exactly when it has a second
    row and its first row has a cell. *)
Theorem word_table_gives_pair_iff (heading base_context : str)
    (rows : list (list str)) :
  is_some (extract_qa_from_table heading (extract_table_data rows) base_context)
  = match rows with
    | first :: _ :: _ => truthy first
    | _ => false
    end.
Proof.
  destruct rows as [|first [|second rest]]; try reflexivity.
  - unfold extract_qa_from_table, extract_table_data.
    cbn [tbl_headers tbl_rows get_or_empty map truthy negb].
    now rewrite orb_true_r.
  - unfold extract_qa_from_table, extract_table_data.
    cbn [tbl_headers tbl_rows get_or_empty map truthy negb].
    rewrite orb_false_r. destruct first; reflexivity.
Qed.

Lemma word_image_step (rel : relationship) (images : list image)
    (warnings : list entry) :
  exists new_images new_warnings,
    word_image (images, warnings) rel = (images ++ new_images, warnings ++ new_warnings)
    /\ (List.length new_images + List.length new_warnings
        = if is_image_rel rel then 1 else 0)%nat
    /\ Forall (fun img => img_relation_id img = Some (rel_rId rel)
                          /\ img_page img = None /\ img_slide img = None)
              new_images.
Proof.
  unfold word_image, is_image_rel.
  destruct (contains (u "image") (rel_target_ref rel)).
  - destruct (rel_blob rel) as [e|image_data].
    + exists [], [(WARNING, u "提取Word图片时出错: " ++ e)].
      rewrite app_nil_r. repeat split. constructor.
    + eexists [_], []. rewrite app_nil_r. repeat split.
      constructor; [|constructor]. cbn. auto.
  - exists [], []. rewrite !app_nil_r. repeat split. constructor.
Qed.

Lemma word_images_fold (rels : list relationship) :
  forall images warnings,
  exists new_images new_warnings,
    fold_left word_image rels (images, warnings)
    = (images ++ new_images, warnings ++ new_warnings)
    /\ (List.length new_images + List.length new_warnings
        = List.length (filter is_image_rel rels))%nat
    /\ Forall (fun img => exists rel, In rel rels
                 /\ img_relation_id img = Some (rel_rId rel)
                 /\ img_page img = None /\ img_slide img = None)
              new_images.
Proof.
  induction rels as [|rel rels IH]; intros images warnings.
  - exists [], []. cbn. rewrite !app_nil_r. repeat split. constructor.
  - cbn [fold_left filter].
    destruct (word_image_step rel images warnings) as (i1 & w1 & E1 & L1 & F1).
    destruct (IH (images ++ i1) (warnings ++ w1)) as (i2 & w2 & E2 & L2 & F2).
    exists (i1 ++ i2), (w1 ++ w2). split; [|split].
    + rewrite !app_assoc. etransitivity; [|exact E2]. f_equal. exact E1.
    + rewrite !length_app. destruct (is_image_rel rel); cbn [List.length]; lia.
    + apply Forall_app. split.
      * eapply Forall_impl; [|exact F1]. cbn. intros img H. exists rel.
        split; [now left | exact H].
      * eapply Forall_impl; [|exact F2]. cbn. intros img (r & Hr & H).
        exists r. split; [now right | exact H].
Qed.


(** ** The paginated-document adapter in general *)

Lemma pdf_image_step (page_num : nat) (it : nat * (str + pixmap))
    (images : list image) (warnings : list entry) :
  exists warnings',
    pdf_image page_num (images, warnings) it
    = (images ++ pixmap_picture page_num it, warnings').
Proof.
  destruct it as [idx [e|pix]]; unfold pdf_image, pixmap_picture; cbn [fst snd].
  - eexists. rewrite app_nil_r. reflexivity.
  - destruct (Nat.ltb (pix_n pix) 5); eexists; rewrite ?app_nil_r; reflexivity.
Qed.

Lemma pdf_images_fold (page_num : nat) (its : list (nat * (str + pixmap))) :
  forall images warnings,
  exists warnings',
    fold_left (pdf_image page_num) its (images, warnings)
    = (images ++ flat_map (pixmap_picture page_num) its, warnings').
Proof.
  induction its as [|it its IH]; intros images warnings.
  - exists warnings. cbn. now rewrite app_nil_r.
  - cbn [fold_left flat_map].
    destruct (pdf_image_step page_num it images warnings) as [w1 E1].
    destruct (IH (images ++ pixmap_picture page_num it) w1) as [w2 E2].
    exists w2. rewrite app_assoc. etransitivity; [|exact E2]. f_equal. exact E1.
Qed.

Lemma pdf_page_step_eq (it : nat * pdf_page) (sections : list section)
    (images : list image) (warnings : list entry) :
  exists warnings',
    pdf_page_step (sections, (images, warnings)) it
    = (sections ++ page_section it, (images ++ page_pictures it, warnings')).
Proof.
  destruct it as [n page]. unfold pdf_page_step, page_section, page_pictures.
  cbn [fst snd].
  destruct (pdf_images_fold n (enumerate (page_images page)) images warnings)
    as [w1 E1].
  exists w1. f_equal.
  - destruct (truthy (strip (page_text page))); now rewrite ?app_nil_r.
  - exact E1.
Qed.

Lemma pdf_pages_fold (its : list (nat * pdf_page)) :
  forall sections images warnings,
  exists warnings',
    fold_left pdf_page_step its (sections, (images, warnings))
    = (sections ++ flat_map page_section its,
       (images ++ flat_map page_pictures its, warnings')).
Proof.
  induction its as [|it its IH]; intros sections images warnings.
  - exists warnings. cbn. now rewrite !app_nil_r.
  - cbn [fold_left flat_map].
    destruct (pdf_page_step_eq it sections images warnings) as [w1 E1].
    destruct (IH (sections ++ page_section it) (images ++ page_pictures it) w1)
      as [w2 E2].
    exists w2. rewrite !app_assoc. etransitivity; [|exact E2]. f_equal. exact E1.
Qed.

Lemma process_pdf_content (p : path) (e : str) (pages : list pdf_page) :
  exists doc warnings,
    process_pdf {| file_path := p; file_data := PdfFile pages; file_error := e |}
    = (Some doc, warnings)
    /\ doc_sections doc = flat_map page_section (enumerate pages)
    /\ doc_images doc = flat_map page_pictures (enumerate pages).
Proof.
  unfold process_pdf. cbn [file_data].
  destruct (pdf_pages_fold (enumerate pages) [] [] []) as [w E]. cbn [app] in E.
  destruct (fold_left pdf_page_step (enumerate pages) _) as [sections [images ws]].
  injection E as -> -> ->. do 2 eexists. split; [reflexivity|]. auto.
Qed.

(** X15: a page gives a section exactly when its text is not blank, with the text
    as extracted; every image reference that can be read and has fewer than
    five components gives one image of the document, also on a page without
    text. *)
Theorem pdf_sections_and_pictures (p : path) (e : str) (pages : list pdf_page) :
  exists doc warnings,
    process_pdf {| file_path := p; file_data := PdfFile pages; file_error := e |}
    = (Some doc, warnings)
    /\ doc_sections doc = flat_map page_section (enumerate pages)
    /\ doc_images doc = flat_map page_pictures (enumerate pages).
Proof.
  unfold process_pdf. cbn [file_data].
  destruct (pdf_pages_fold (enumerate pages) [] [] []) as [w E]. cbn [app] in E.
  destruct (fold_left pdf_page_step (enumerate pages) _) as [sections [images ws]].
  injection E as -> -> ->.
  exists {| doc_title := path_stem p; doc_source_file := path_str p;
            doc_type := u "pdf";
            doc_sections := flat_map page_section (enumerate pages);
            doc_images := flat_map page_pictures (enumerate pages) |}, w.
  repeat split.
Qed.

Lemma enumerate_bound {A} (l : list A) (i : nat) (x : A) :
  In (i, x) (enumerate l) -> (i < List.length l)%nat.
Proof.
  unfold enumerate. intros H. apply in_combine_l in H. apply in_seq in H. lia.
Qed.

Lemma combine_seq_nth {A} (x : A) (l : list A) :
  forall start k,
    In ((start + k)%nat, x) (combine (seq start (List.length l)) l) ->
    nth_error l k = Some x.
Proof.
  induction l as [|y l IH]; intros start k H; cbn in H; [contradiction|].
  destruct H as [H|H].
  - injection H as Hk ->. assert (k = 0%nat) by lia. subst. reflexivity.
  - destruct k as [|k].
    + apply in_combine_l, in_seq in H. lia.
    + cbn. apply (IH (S start) k). now rewrite Nat.add_succ_r in H.
Qed.

Lemma enumerate_nth {A} (l : list A) (i : nat) (x : A) :
  In (i, x) (enumerate l) -> nth_error l i = Some x.
Proof. unfold enumerate. intros H. now apply (combine_seq_nth x l 0 i). Qed.

(** X16: every image of a PDF document is a PNG with the number of an existing
    page, counted from 1, and an index among the references of that page. *)
Theorem pdf_images_are_png_of_a_page (p : path) (e : str) (pages : list pdf_page)
    (doc : document) (warnings : list entry) (img : image) :
  process_pdf {| file_path := p; file_data := PdfFile pages; file_error := e |}
  = (Some doc, warnings) ->
  In img (doc_images doc) ->
  img_format img = u "png"
  /\ exists n page idx,
       img_page img = Some n /\ (1 <= n <= List.length pages)%nat
       /\ nth_error pages (n - 1) = Some page
       /\ img_index img = Some idx
       /\ (idx < List.length (page_images page))%nat.
Proof.
  intros Hdoc Himg.
  destruct (process_pdf_content p e pages) as (doc' & w' & E & _ & Hi).
  rewrite Hdoc in E. injection E as <- <-. rewrite Hi in Himg.
  apply in_flat_map in Himg as ([n page] & Hpage & Himg).
  unfold page_pictures in Himg. cbn [fst snd] in Himg.
  apply in_flat_map in Himg as ([idx ref] & Href & Himg).
  unfold pixmap_picture in Himg. cbn [fst snd] in Himg.
  destruct ref as [msg|pix]; [contradiction|].
  destruct (Nat.ltb (pix_n pix) 5); [|contradiction].
  destruct Himg as [<-|[]]. cbn. split; [reflexivity|].
  exists (n + 1)%nat, page, idx.
  pose proof (enumerate_bound _ _ _ Hpage).
  pose proof (enumerate_bound _ _ _ Href).
  repeat split; try lia; try assumption.
  replace (n + 1 - 1)%nat with n by lia.
  exact (enumerate_nth _ _ _ Hpage).
Qed.

Lemma pdf_images_are_png_of_a_page_witness :
  let img := {| img_page := Some 1%nat; img_index := Some 0%nat; img_slide := None;
                img_data := u "iVBORw=="; img_format := u "png";
                img_relation_id := None |} in
  img_format img = u "png"
  /\ exists n page idx,
       img_page img = Some n /\ (1 <= n <= List.length scan_pages)%nat
       /\ nth_error scan_pages (n - 1) = Some page
       /\ img_index img = Some idx
       /\ (idx < List.length (page_images page))%nat.
Proof.
  eapply (@pdf_images_are_png_of_a_page (file_path scan_pdf) (file_error scan_pdf)
            scan_pages).
  - reflexivity.
  - vm_compute. left. reflexivity.
Defined.

(** ** No adapter puts an image into a section *)

Lemma word_sections_no_images (body : list body_element) :
  Forall (fun s => sec_images s = []) (word_sections body).
Proof.
  unfold word_sections.
  assert (Hinv : Forall (fun s => sec_images s = [])
                   (fst (fold_left word_element body ([], new_section [])))
                 /\ sec_images (snd (fold_left word_element body ([], new_section [])))
                    = []).
  { apply fold_left_invariant with
      (I := fun st => Forall (fun s => sec_images s = []) (fst st)
                      /\ sec_images (snd st) = []);
      [|split; [constructor | reflexivity]].
    intros [sections current] el _ [Hs Hc]. cbn [fst snd] in *.
    unfold word_element.
    destruct el as [p|rows|]; cbn [fst snd]; try (split; assumption).
    destruct (truthy (strip (par_text p))); [|split; assumption].
    destruct (is_heading_paragraph p); cbn [fst snd]; [|split; assumption].
    split; [apply flush_Forall; auto | reflexivity]. }
  destruct (fold_left word_element body _) as [sections current].
  destruct Hinv as [Hs Hc]. apply flush_Forall; auto.
Qed.

Lemma excel_sections_no_images (sheets : list sheet) :
  forall sections,
    Forall (fun s => sec_images s = []) sections ->
    Forall (fun s => sec_images s = []) (fold_left excel_sheet sheets sections).
Proof.
  induction sheets as [|sh sheets IH]; intros sections Hs; cbn [fold_left];
    [assumption|].
  apply IH. unfold excel_sheet. destruct (truthy (sheet_data sh)); [|assumption].
  apply Forall_app. split; [assumption|]. repeat constructor.
Qed.

Lemma page_sections_no_images (its : list (nat * pdf_page)) :
  Forall (fun s => sec_images s = []) (flat_map page_section its).
Proof.
  apply Forall_forall. intros s Hs.
  apply in_flat_map in Hs as (it & _ & Hs).
  unfold page_section in Hs.
  destruct (truthy (strip (page_text (snd it)))); simpl in Hs;
    [destruct Hs as [<- | []]; reflexivity | contradiction].
Qed.

Lemma process_powerpoint_content (p : path) (e : str) (slides : list slide) :
  exists doc warnings,
    process_powerpoint {| file_path := p; file_data := PptFile slides;
                          file_error := e |} = (Some doc, warnings)
    /\ doc_sections doc = flat_map slide_section (enumerate slides)
    /\ doc_images doc = flat_map slide_pictures (enumerate slides).
Proof.
  unfold process_powerpoint, ppt_content. cbn [file_data].
  destruct (ppt_slides_fold (enumerate slides) [] [] []) as [w E]. cbn [app] in E.
  destruct (fold_left ppt_slide (enumerate slides) _) as [sections [images ws]].
  injection E as -> -> ->. do 2 eexists. split; [reflexivity|]. auto.
Qed.

(** X17: whatever the file and the adapter, the sections of the content hold no
    image: images only ever go to the images of the document. *)
Theorem sections_never_hold_images (f : file) (processor : adapter)
    (doc : document) (records : list entry) :
  In processor (map snd supported_formats) ->
  processor f = (Some doc, records) ->
  Forall (fun s => sec_images s = []) (doc_sections doc).
Proof.
  intros Hin Hdoc. destruct f as [p d e].
  unfold supported_formats in Hin. cbn [map snd In] in Hin.
  assert (Hword : process_word {| file_path := p; file_data := d; file_error := e |}
                  = (Some doc, records) ->
                  Forall (fun s => sec_images s = []) (doc_sections doc)).
  { unfold process_word. cbn [file_data file_path].
    destruct d as [|wd| | |]; try discriminate.
    destruct (extract_word_images wd) as [images warnings].
    intros [= <- _]. apply word_sections_no_images. }
  assert (Hpdf : process_pdf {| file_path := p; file_data := d; file_error := e |}
                 = (Some doc, records) ->
                 Forall (fun s => sec_images s = []) (doc_sections doc)).
  { destruct d as [| |pages| |]; try discriminate.
    destruct (process_pdf_content p e pages) as (doc' & w' & E & Hs & _).
    rewrite E. intros [= <- _]. rewrite Hs. apply page_sections_no_images. }
  assert (Hxls : process_excel {| file_path := p; file_data := d; file_error := e |}
                 = (Some doc, records) ->
                 Forall (fun s => sec_images s = []) (doc_sections doc)).
  { unfold process_excel. cbn [file_data file_path].
    destruct d as [| | |sheets|]; try discriminate.
    intros [= <- _]. cbn [doc_sections].
    apply excel_sections_no_images. constructor. }
  assert (Hppt : process_powerpoint {| file_path := p; file_data := d; file_error := e |}
                 = (Some doc, records) ->
                 Forall (fun s => sec_images s = []) (doc_sections doc)).
  { destruct d as [| | | |slides]; try discriminate.
    destruct (process_powerpoint_content p e slides) as (doc' & w' & E & Hs & _).
    rewrite E. intros [= <- _]. rewrite Hs. apply slide_sections_have_no_images. }
  destruct Hin as [<-|[<-|[<-|[<-|[<-|[<-|[<-|[]]]]]]]]; auto.
Qed.

Lemma sections_never_hold_images_witness :
  Forall (fun s => sec_images s = [])
    (doc_sections
       {| doc_title := u "deck"; doc_source_file := u "in/deck.pptx";
          doc_type := u "powerpoint";
          doc_sections :=
            [{| sec_heading := u "幻灯片 2"; sec_content := u "Hi" ++ [NL];
                sec_tables := []; sec_images := [] |}];
          doc_images :=
            [{| img_page := None; img_index := None; img_slide := Some 1%nat;
                img_data := u "iVBO"; img_format := u "png";
                img_relation_id := None |};
             {| img_page := None; img_index := None; img_slide := Some 2%nat;
                img_data := u "iVBO"; img_format := u "png";
                img_relation_id := None |}] |}).
Proof.
  apply (@sections_never_hold_images deck process_powerpoint _ []).
  - unfold supported_formats. cbn [map snd In]. auto 10.
  - vm_compute. reflexivity.
Defined.

(** ** The driver in general *)

















(** *** Counting *)







(** *** Failing writes *)





(** *** Workbooks and the driver *)

(** X19: a readable workbook with a supported extension is counted, but gives no
    output: the driver only logs that no Q&A content was produced. *)
Theorem workbook_is_counted_without_output `{Unicode} `{SetOrder} `{Disk}
    (output_dir : str) (f : file) (sheets : list sheet) (w : world) :
  file_data f = ExcelFile sheets ->
  lookup_format (lower (path_suffix (file_path f))) supported_formats
    = Some process_excel ->
  process_file output_dir f w =
    (Ok tt,
     {| processed_count := S (processed_count w);
        log := log w
               ++ [(INFO, u "处理文件: " ++ path_str (file_path f));
                   (WARNING, u "文件 " ++ path_str (file_path f)
                             ++ u " 没有生成有效的Q&A内容")];
        written := written w |}).
Proof.
  intros Hdata Hfmt.
  unfold process_file, process_single_document.
  rewrite Hfmt. cbn [is_some]. unfold process_excel. rewrite Hdata.
  unfold save_processed_content, convert_to_qa_format.
  cbn [doc_sections doc_images doc_title].
  rewrite silent_sections_give_nothing
    by (apply excel_sections_silent; constructor).
  cbn [enumerate List.length seq combine fold_left truthy negb].
  unfold try_except, bind, logger, log_all, incr_count.
  cbn [log processed_count written]. rewrite app_nil_r, <- app_assoc.
  reflexivity.
Qed.

Lemma workbook_is_counted_without_output_witness :
  processed_count
    (snd (@process_file basic_unicode first_seen good_disk (u "out") book_xlsx start))
  = 1%nat.
Proof.
  eapply eq_trans.
  - eapply (f_equal (fun r => processed_count (snd r))).
    eapply (@workbook_is_counted_without_output basic_unicode first_seen good_disk
              (u "out") book_xlsx [sheet1]).
    + reflexivity.
    + reflexivity.
  - reflexivity.
Defined.

(** ** Image data: from the adapters to the Word output *)

Lemma below_spec (P : N -> bool) (k : nat) :
  forallb P (below k) = true -> forall n, n < N.of_nat k -> P n = true.
Proof.
  intros H n Hn. rewrite forallb_forall in H. apply H.
  unfold below. apply in_map_iff. exists (N.to_nat n).
  split; [apply N2Nat.id | apply in_seq; lia].
Qed.

Lemma below2_spec (P : N -> N -> bool) (k : nat) :
  forallb (fun a => forallb (P a) (below k)) (below k) = true ->
  forall a b, a < N.of_nat k -> b < N.of_nat k -> P a b = true.
Proof.
  intros H a b Ha Hb.
  apply (@below_spec (P a) k); [|exact Hb].
  exact (@below_spec (fun a => forallb (P a) (below k)) k H a Ha).
Qed.

(** The characters of the alphabet: ASCII, not the padding, and read back as
    their value. *)
Lemma b64_char_facts (v : N) :
  v < 64 ->
  (b64_char v =? 61) = false /\ b64_value (b64_char v) = Some v
  /\ (b64_char v <? 128) = true.
Proof.
  intros Hv.
  assert (C : forallb
    (fun v => negb (b64_char v =? 61)
              && match b64_value (b64_char v) with
                 | Some x => x =? v
                 | None => false
                 end
              && (b64_char v <? 128))
    (below 64) = true) by (vm_compute; reflexivity).
  assert (H := @below_spec _ 64 C v Hv).
  cbv beta in H. apply andb_true_iff in H as [H H3].
  apply andb_true_iff in H as [H1 H2].
  apply negb_true_iff in H1.
  destruct (b64_value (b64_char v)) as [x|]; [|discriminate].
  apply N.eqb_eq in H2. subst x. auto.
Qed.

Lemma a2b_step (v : N) (s : str) (quad_pos : nat) (leftchar : N) (pads : nat)
    (out : bytes) :
  v < 64 ->
  a2b_loop (b64_char v :: s) quad_pos leftchar pads out =
  match quad_pos with
  | 0%nat => a2b_loop s 1 v 0 out
  | 1%nat =>
    a2b_loop s 2 (N.land v 15) 0
      (out ++ [N.lor (N.shiftl leftchar 2) (N.shiftr v 4) mod 256])
  | 2%nat =>
    a2b_loop s 3 (N.land v 3) 0
      (out ++ [N.lor (N.shiftl leftchar 4) (N.shiftr v 2) mod 256])
  | _ => a2b_loop s 0 0 0 (out ++ [N.lor (N.shiftl leftchar 6) v mod 256])
  end.
Proof.
  intros Hv. destruct (@b64_char_facts _ Hv) as (H1 & H2 & _).
  cbn [a2b_loop]. rewrite H1, H2. reflexivity.
Qed.

(** The arithmetic of a quad, checked on all bytes. *)
Lemma quad_values (a b : N) :
  a < 256 -> b < 256 ->
  a / 4 < 64 /\ (a mod 4) * 16 + b / 16 < 64 /\ (a mod 4) * 16 < 64
  /\ (a mod 16) * 4 + b / 64 < 64 /\ (a mod 16) * 4 < 64 /\ a mod 64 < 64.
Proof.
  intros Ha Hb.
  set (P := fun a b : N =>
    (a / 4 <? 64) && ((a mod 4) * 16 + b / 16 <? 64)
    && ((a mod 4) * 16 <? 64) && ((a mod 16) * 4 + b / 64 <? 64)
    && ((a mod 16) * 4 <? 64) && (a mod 64 <? 64)).
  assert (C : forallb (fun a => forallb (P a) (below 256)) (below 256) = true)
    by (vm_compute; reflexivity).
  assert (H := @below2_spec P 256 C a b Ha Hb).
  unfold P in H. repeat (apply andb_true_iff in H as [H ?]).
  repeat split; now apply N.ltb_lt.
Qed.

Lemma quad_first (a b : N) :
  a < 256 -> b < 256 ->
  N.lor (N.shiftl (a / 4) 2) (N.shiftr ((a mod 4) * 16 + b / 16) 4) mod 256 = a
  /\ N.lor (N.shiftl (a / 4) 2) (N.shiftr ((a mod 4) * 16) 4) mod 256 = a
  /\ N.land ((a mod 4) * 16 + b / 16) 15 = b / 16.
Proof.
  intros Ha Hb.
  set (P := fun a b : N =>
    (N.lor (N.shiftl (a / 4) 2) (N.shiftr ((a mod 4) * 16 + b / 16) 4) mod 256
     =? a)
    && (N.lor (N.shiftl (a / 4) 2) (N.shiftr ((a mod 4) * 16) 4) mod 256 =? a)
    && (N.land ((a mod 4) * 16 + b / 16) 15 =? b / 16)).
  assert (C : forallb (fun a => forallb (P a) (below 256)) (below 256) = true)
    by (vm_compute; reflexivity).
  assert (H := @below2_spec P 256 C a b Ha Hb).
  unfold P in H. repeat (apply andb_true_iff in H as [H ?]).
  repeat split; now apply N.eqb_eq.
Qed.

Lemma quad_second (b c : N) :
  b < 256 -> c < 256 ->
  N.lor (N.shiftl (b / 16) 4) (N.shiftr ((b mod 16) * 4 + c / 64) 2) mod 256 = b
  /\ N.lor (N.shiftl (b / 16) 4) (N.shiftr ((b mod 16) * 4) 2) mod 256 = b
  /\ N.land ((b mod 16) * 4 + c / 64) 3 = c / 64
  /\ N.lor (N.shiftl (c / 64) 6) (c mod 64) mod 256 = c.
Proof.
  intros Hb Hc.
  set (P := fun b c : N =>
    (N.lor (N.shiftl (b / 16) 4) (N.shiftr ((b mod 16) * 4 + c / 64) 2) mod 256
     =? b)
    && (N.lor (N.shiftl (b / 16) 4) (N.shiftr ((b mod 16) * 4) 2) mod 256 =? b)
    && (N.land ((b mod 16) * 4 + c / 64) 3 =? c / 64)
    && (N.lor (N.shiftl (c / 64) 6) (c mod 64) mod 256 =? c)).
  assert (C : forallb (fun b => forallb (P b) (below 256)) (below 256) = true)
    by (vm_compute; reflexivity).
  assert (H := @below2_spec P 256 C b c Hb Hc).
  unfold P in H. repeat (apply andb_true_iff in H as [H ?]).
  repeat split; now apply N.eqb_eq.
Qed.

Lemma a2b_encode (n : nat) :
  forall bs out,
    (List.length bs <= n)%nat -> Forall (fun b => b < 256) bs ->
    a2b_loop (b64encode bs) 0 0 0 out = Ok (out ++ bs).
Proof.
  induction n as [|n IH]; intros bs out Hn Hbs.
  - destruct bs; [cbn; now rewrite app_nil_r | cbn in Hn; lia].
  - destruct bs as [|a [|b [|c r]]].
    + cbn. now rewrite app_nil_r.
    + inversion Hbs as [|? ? Ha _]; subst.
      destruct (@quad_values _ _ Ha Ha) as (V1 & _ & V2 & _).
      destruct (@quad_first _ _ Ha Ha) as (_ & B1 & _).
      cbn [b64encode]. rewrite (@a2b_step _ _ _ _ _ _ V1), (@a2b_step _ _ _ _ _ _ V2).
      rewrite B1. reflexivity.
    + inversion Hbs as [|? ? Ha Hbs']; subst.
      inversion Hbs' as [|? ? Hb _]; subst.
      destruct (@quad_values _ _ Ha Hb) as (V1 & V2 & _).
      destruct (@quad_values _ _ Hb Hb) as (_ & _ & _ & _ & V3 & _).
      destruct (@quad_first _ _ Ha Hb) as (B1 & _ & L2).
      destruct (@quad_second _ _ Hb Hb) as (_ & B2 & _).
      cbn [b64encode].
      rewrite (@a2b_step _ _ _ _ _ _ V1), (@a2b_step _ _ _ _ _ _ V2),
        (@a2b_step _ _ _ _ _ _ V3).
      rewrite B1, L2, B2, <- app_assoc. reflexivity.
    + inversion Hbs as [|? ? Ha Hbs']; subst.
      inversion Hbs' as [|? ? Hb Hbs'']; subst.
      inversion Hbs'' as [|? ? Hc Hr]; subst.
      destruct (@quad_values _ _ Ha Hb) as (V1 & V2 & _).
      destruct (@quad_values _ _ Hb Hc) as (_ & _ & _ & V3 & _).
      destruct (@quad_values _ _ Hc Hc) as (_ & _ & _ & _ & _ & V4).
      destruct (@quad_first _ _ Ha Hb) as (B1 & _ & L2).
      destruct (@quad_second _ _ Hb Hc) as (B2 & _ & L3 & B3).
      cbn [b64encode].
      rewrite (@a2b_step _ _ _ _ _ _ V1), (@a2b_step _ _ _ _ _ _ V2),
        (@a2b_step _ _ _ _ _ _ V3), (@a2b_step _ _ _ _ _ _ V4).
      rewrite B1, L2, B2, L3, B3.
      rewrite IH; [|cbn in Hn; lia | assumption].
      now rewrite <- !app_assoc.
Qed.

Lemma b64encode_ascii (n : nat) :
  forall bs,
    (List.length bs <= n)%nat -> Forall (fun b => b < 256) bs ->
    forallb (fun c => c <? 128) (b64encode bs) = true.
Proof.
  induction n as [|n IH]; intros bs Hn Hbs.
  - destruct bs; [reflexivity | cbn in Hn; lia].
  - destruct bs as [|a [|b [|c r]]]; [reflexivity| | |].
    + inversion Hbs as [|? ? Ha _]; subst.
      destruct (@quad_values _ _ Ha Ha) as (V1 & _ & V2 & _).
      cbn [b64encode forallb].
      rewrite (proj2 (proj2 (@b64_char_facts _ V1))),
        (proj2 (proj2 (@b64_char_facts _ V2))). reflexivity.
    + inversion Hbs as [|? ? Ha Hbs']; subst.
      inversion Hbs' as [|? ? Hb _]; subst.
      destruct (@quad_values _ _ Ha Hb) as (V1 & V2 & _).
      destruct (@quad_values _ _ Hb Hb) as (_ & _ & _ & _ & V3 & _).
      cbn [b64encode forallb].
      rewrite (proj2 (proj2 (@b64_char_facts _ V1))),
        (proj2 (proj2 (@b64_char_facts _ V2))),
        (proj2 (proj2 (@b64_char_facts _ V3))). reflexivity.
    + inversion Hbs as [|? ? Ha Hbs']; subst.
      inversion Hbs' as [|? ? Hb Hbs'']; subst.
      inversion Hbs'' as [|? ? Hc Hr]; subst.
      destruct (@quad_values _ _ Ha Hb) as (V1 & V2 & _).
      destruct (@quad_values _ _ Hb Hc) as (_ & _ & _ & V3 & _).
      destruct (@quad_values _ _ Hc Hc) as (_ & _ & _ & _ & _ & V4).
      cbn [b64encode forallb].
      rewrite (proj2 (proj2 (@b64_char_facts _ V1))),
        (proj2 (proj2 (@b64_char_facts _ V2))),
        (proj2 (proj2 (@b64_char_facts _ V3))),
        (proj2 (proj2 (@b64_char_facts _ V4))).
      cbn [andb]. apply IH; [cbn in Hn; lia | assumption].
Qed.

(** X23: the image data an adapter stores decodes, as [create_word_document] does
    it, to the bytes of the image. *)
Theorem image_data_decodes_to_the_bytes (blob : bytes) :
  Forall (fun b => b < 256) blob ->
  b64decode (b64encode blob) = Ok blob.
Proof.
  intros Hb. unfold b64decode.
  rewrite (@b64encode_ascii (List.length blob) blob (le_n _) Hb).
  exact (@a2b_encode (List.length blob) blob [] (le_n _) Hb).
Qed.

Lemma image_data_decodes_to_the_bytes_witness :
  b64decode (b64encode [137; 80; 78; 71; 13; 10; 26; 10])
  = Ok [137; 80; 78; 71; 13; 10; 26; 10].
Proof.
  apply image_data_decodes_to_the_bytes.
  repeat constructor.
Defined.

(** ** The synthesizer in general *)

Lemma tables_fold `{Unicode} `{SetOrder} (heading base_context : str)
    (ts : list table) :
  forall qa_pairs,
    fold_left
      (fun qa_pairs t =>
         qa_pairs ++ option_list (extract_qa_from_table heading t base_context))
      ts qa_pairs
    = qa_pairs
      ++ flat_map (fun t => option_list
                              (extract_qa_from_table heading t base_context)) ts.
Proof.
  induction ts as [|t ts IH]; intros qa_pairs; cbn [fold_left flat_map].
  - now rewrite app_nil_r.
  - rewrite IH. now rewrite app_assoc.
Qed.

Lemma section_qa_appends `{Unicode} `{SetOrder} (base_context : str)
    (qa_pairs : list qa_pair) (s : section) :
  section_qa base_context qa_pairs s = qa_pairs ++ section_pairs base_context s.
Proof.
  unfold section_qa, section_pairs. rewrite tables_fold.
  destruct (truthy (strip (sec_content s))); now rewrite <- ?app_assoc.
Qed.

Lemma sections_fold `{Unicode} `{SetOrder} (base_context : str)
    (sections : list section) :
  forall qa_pairs,
    fold_left (section_qa base_context) sections qa_pairs
    = qa_pairs ++ flat_map (section_pairs base_context) sections.
Proof.
  induction sections as [|s sections IH]; intros qa_pairs; cbn [fold_left flat_map].
  - now rewrite app_nil_r.
  - rewrite IH, section_qa_appends. now rewrite app_assoc.
Qed.

Lemma images_fold (doc_title base_context : str) (its : list (nat * image)) :
  forall qa_pairs,
    fold_left
      (fun qa_pairs (it : nat * image) =>
         let (i, img) := it in
         qa_pairs ++ [create_image_qa doc_title img i base_context])
      its qa_pairs
    = qa_pairs
      ++ map (fun it => create_image_qa doc_title (snd it) (fst it) base_context) its.
Proof.
  induction its as [|[i img] its IH]; intros qa_pairs; cbn [fold_left map].
  - now rewrite app_nil_r.
  - rewrite IH. cbn [fst snd]. now rewrite <- app_assoc.
Qed.

(** The pairs of a document: section by section, then the images. *)
Lemma convert_structure `{Unicode} `{SetOrder} (content : document) :
  convert_to_qa_format content
  = flat_map (section_pairs (provenance content)) (doc_sections content)
    ++ image_pairs (doc_title content) (provenance content) (doc_images content).
Proof.
  unfold convert_to_qa_format, image_pairs, provenance.
  rewrite images_fold, sections_fold. reflexivity.
Qed.

Lemma section_pairs_facts `{Unicode} `{SetOrder} (base_context : str)
    (s : section) (qa : qa_pair) :
  In qa (section_pairs base_context s) ->
  qa_source qa = base_context /\ qa_kind qa <> ImageQA
  /\ qa_image_data qa = None /\ qa_image_format qa = None.
Proof.
  unfold section_pairs. intros Hqa. apply in_app_or in Hqa as [Hqa|Hqa].
  - destruct (truthy (strip (sec_content s))); [|contradiction].
    destruct Hqa as [<-|[]]. cbn. repeat split. discriminate.
  - apply in_flat_map in Hqa as (t & _ & Hqa).
    unfold extract_qa_from_table in Hqa.
    destruct (negb _ || negb _); [contradiction|].
    destruct Hqa as [<-|[]]. cbn. repeat split. discriminate.
Qed.

(** X20: every pair of a document names the document as its source, and the image
    fields are filled on the image pairs and on no other pair. *)
Theorem pairs_carry_source_and_kind `{Unicode} `{SetOrder} (content : document) :
  Forall (fun qa =>
            qa_source qa = u "文档来源：" ++ doc_title content
            /\ (qa_kind qa = ImageQA <-> qa_image_data qa <> None)
            /\ (qa_kind qa = ImageQA <-> qa_image_format qa <> None))
         (convert_to_qa_format content).
Proof.
  rewrite convert_structure. apply Forall_app. split; apply Forall_forall.
  - intros qa Hqa. apply in_flat_map in Hqa as (s & _ & Hqa).
    apply section_pairs_facts in Hqa as (Hs & Hk & Hd & Hf).
    rewrite Hd, Hf. repeat split; try assumption; intros; congruence.
  - intros qa Hqa. unfold image_pairs in Hqa.
    apply in_map_iff in Hqa as (it & <- & _). cbn.
    repeat split; intros; congruence.
Qed.

Lemma enumerate_length {A} (l : list A) : List.length (enumerate l) = List.length l.
Proof.
  unfold enumerate. rewrite length_combine, length_seq. apply Nat.min_id.
Qed.

Lemma combine_seq_nth_error {A} (l : list A) :
  forall start i x,
    nth_error l i = Some x ->
    nth_error (combine (seq start (List.length l)) l) i = Some ((start + i)%nat, x).
Proof.
  induction l as [|y l IH]; intros start i x Hx; [destruct i; discriminate|].
  destruct i as [|i]; cbn in *.
  - injection Hx as ->. now rewrite Nat.add_0_r.
  - rewrite (IH (S start) i x Hx). now rewrite Nat.add_succ_r.
Qed.

(** X21: the image pairs come last, one for each image of the document and in
    their order: image [i] (counted from 0) is asked for as image [i + 1]. *)
Theorem image_pairs_come_last `{Unicode} `{SetOrder} (content : document) :
  exists others,
    convert_to_qa_format content
    = others
      ++ image_pairs (doc_title content) (provenance content) (doc_images content)
    /\ Forall (fun qa => qa_kind qa <> ImageQA) others
    /\ List.length (image_pairs (doc_title content) (provenance content)
                      (doc_images content))
       = List.length (doc_images content)
    /\ forall i img,
         nth_error (doc_images content) i = Some img ->
         nth_error (convert_to_qa_format content) (List.length others + i)
         = Some (create_image_qa (doc_title content) img i (provenance content)).
Proof.
  exists (flat_map (section_pairs (provenance content)) (doc_sections content)).
  split; [apply convert_structure|]. split; [|split].
  - apply Forall_forall. intros qa Hqa.
    apply in_flat_map in Hqa as (s & _ & Hqa).
    now apply section_pairs_facts in Hqa.
  - unfold image_pairs. now rewrite length_map, enumerate_length.
  - intros i img Himg. rewrite convert_structure.
    rewrite nth_error_app2 by lia.
    replace (List.length _ + i - List.length _)%nat with i by lia.
    unfold image_pairs, enumerate.
    rewrite nth_error_map, (combine_seq_nth_error _ 0 _ Himg). reflexivity.
Qed.

(** X22: a document gives at most one pair for each section, each table and each
    image. *)
Theorem pairs_bounded_by_content `{Unicode} `{SetOrder} (content : document) :
  (List.length (convert_to_qa_format content)
   <= List.length (doc_sections content)
      + List.length (flat_map sec_tables (doc_sections content))
      + List.length (doc_images content))%nat.
Proof.
  rewrite convert_structure, length_app.
  unfold image_pairs. rewrite length_map, enumerate_length.
  assert (Hs : (List.length (flat_map (section_pairs (provenance content))
                               (doc_sections content))
                <= List.length (doc_sections content)
                   + List.length (flat_map sec_tables (doc_sections content)))%nat).
  { induction (doc_sections content) as [|s sections IH]; [cbn; lia|].
    cbn [flat_map List.length]. rewrite !length_app.
    assert (Hone : (List.length (section_pairs (provenance content) s)
                    <= 1 + List.length (sec_tables s))%nat).
    { unfold section_pairs. rewrite length_app.
      assert (Ht : (List.length
                      (flat_map (fun t => option_list
                                   (extract_qa_from_table (sec_heading s) t
                                      (provenance content))) (sec_tables s))
                    <= List.length (sec_tables s))%nat).
      { induction (sec_tables s) as [|t ts IHt]; [cbn; lia|].
        cbn [flat_map List.length]. rewrite length_app.
        destruct (extract_qa_from_table _ t _); cbn [option_list List.length]; lia. }
      destruct (truthy _); cbn [List.length]; lia. }
    lia. }
  lia.
Qed.

(** X14: the answer for an image of a Word document names no page and no slide. *)
Theorem word_image_answer_has_no_location (doc : word_doc) (doc_title : str)
    (img : image) (index : nat) (base_context : str) :
  In img (fst (extract_word_images doc)) ->
  qa_answer (create_image_qa doc_title img index base_context)
  = u "这是来自文档《" ++ doc_title ++ u "》的第" ++ str_of_nat (index + 1)
    ++ u "张图片。".
Proof.
  intros Himg. unfold extract_word_images in Himg.
  destruct (word_images_fold (word_rels doc) [] []) as (i & w & E & _ & F).
  cbn [app] in E.
  destruct (fold_left word_image (word_rels doc) _) as [images warnings].
  injection E as -> ->. cbn [fst] in Himg.
  rewrite Forall_forall in F. destruct (F img Himg) as (rel & _ & _ & Hp & Hs).
  unfold create_image_qa. cbn [qa_answer]. rewrite Hp, Hs. reflexivity.
Qed.

Lemma word_image_answer_has_no_location_witness :
  qa_answer
    (create_image_qa (u "manual")
       {| img_page := None; img_index := None; img_slide := None;
          img_data := u "iVBORw=="; img_format := u "png";
          img_relation_id := Some (u "rId7") |} 0 (u "文档来源：manual"))
  = u "这是来自文档《" ++ u "manual" ++ u "》的第" ++ str_of_nat (0 + 1)
    ++ u "张图片。".
Proof.
  apply (@word_image_answer_has_no_location manual).
  vm_compute. left. reflexivity.
Defined.

(** ** Paths and formats *)

Lemma rfind_dot_spec (s : str) :
  forall i last j,
    rfind_dot s i last = Some j ->
    (last = Some j /\ ~ In 46 s)
    \/ exists a b, s = a ++ 46 :: b /\ ~ In 46 b /\ j = (i + List.length a)%nat.
Proof.
  induction s as [|c s IH]; intros i last j H; cbn [rfind_dot] in H.
  - left. split; [assumption | intros []].
  - destruct (IH _ _ _ H) as [[Hl Hn]|(a & b & -> & Hb & ->)].
    + destruct (N.eqb_spec c 46) as [->|Hc].
      * right. exists [], s. injection Hl as <-. cbn. rewrite Nat.add_0_r. auto.
      * left. split; [assumption|]. intros [Hin|Hin]; [congruence | auto].
    + right. exists (c :: a), b. cbn. rewrite Nat.add_succ_r. auto.
Qed.

(** X30: stem and suffix make up the name; a suffix, when there is one, is the
    last dot of the name with what follows it, which is not empty, and the stem
    before it is not empty either. *)
Theorem stem_and_suffix_split_the_name (p : path) :
  path_stem p ++ path_suffix p = path_name p
  /\ (path_suffix p = []
      \/ exists ext,
           path_suffix p = 46 :: ext /\ ext <> [] /\ ~ In 46 ext
           /\ path_stem p <> []).
Proof.
  unfold path_stem, path_suffix, suffix_at.
  destruct (rfind_dot (path_name p) 0 None) as [i|] eqn:E;
    [|split; [apply app_nil_r | now left]].
  destruct (Nat.ltb 0 i && Nat.ltb i (pred (List.length (path_name p))))%bool eqn:B;
    [|split; [apply app_nil_r | now left]].
  split; [apply firstn_skipn|]. right.
  apply andb_true_iff in B as [B1 B2].
  apply Nat.ltb_lt in B1. apply Nat.ltb_lt in B2.
  destruct (rfind_dot_spec _ _ _ E) as [[Hl _]|(a & b & Hn & Hb & Hi)];
    [discriminate|].
  cbn in Hi. subst i. rewrite Hn in *.
  rewrite length_app in B2. cbn [List.length] in B2.
  exists b. rewrite skipn_app, firstn_app, skipn_all, firstn_all, Nat.sub_diag.
  cbn. rewrite app_nil_r. repeat split; try assumption.
  - destruct b; [cbn in B2; lia | discriminate].
  - destruct a; [cbn in B1; lia | discriminate].
Qed.

Lemma after_last_dot_no_dot (s : str) :
  forall acc, ~ In 46 acc -> ~ In 46 (after_last_dot s acc).
Proof.
  induction s as [|c s IH]; intros acc Hacc; cbn [after_last_dot]; [assumption|].
  destruct (N.eqb_spec c 46) as [->|Hc]; apply IH; [intros []|].
  intros Hin. apply in_app_or in Hin as [Hin|[Hin|[]]]; [auto | congruence].
Qed.

Lemma after_last_dot_suffix (s : str) :
  forall acc, exists a, acc ++ s = a ++ after_last_dot s acc.
Proof.
  induction s as [|c s IH]; intros acc; cbn [after_last_dot].
  - exists []. now rewrite app_nil_r.
  - destruct (c =? 46).
    + destruct (IH []) as [a Ha]. exists (acc ++ c :: a).
      rewrite <- app_assoc. cbn. f_equal. f_equal. exact Ha.
    + destruct (IH (acc ++ [c])) as [a Ha]. exists a.
      rewrite <- Ha, <- app_assoc. reflexivity.
Qed.

(** X13: the format of an image of a Word document is the end of the target
    reference of its relationship and holds no dot. *)
Theorem word_image_format_is_the_extension (doc : word_doc) (img : image) :
  In img (fst (extract_word_images doc)) ->
  ~ In 46 (img_format img)
  /\ exists rel a,
       In rel (word_rels doc) /\ rel_target_ref rel = a ++ img_format img.
Proof.
  unfold extract_word_images.
  assert (G : forall rels images warnings,
    Forall (fun img => ~ In 46 (img_format img)
              /\ exists rel a, In rel (word_rels doc)
                   /\ rel_target_ref rel = a ++ img_format img) images ->
    incl rels (word_rels doc) ->
    Forall (fun img => ~ In 46 (img_format img)
              /\ exists rel a, In rel (word_rels doc)
                   /\ rel_target_ref rel = a ++ img_format img)
           (fst (fold_left word_image rels (images, warnings)))).
  { induction rels as [|rel rels IH]; intros images warnings Hi Hincl;
      cbn [fold_left]; [exact Hi|].
    assert (Hrel : In rel (word_rels doc)) by (apply Hincl; now left).
    assert (Hrest : incl rels (word_rels doc))
      by (intros x Hx; apply Hincl; now right).
    unfold word_image at 2.
    destruct (contains (u "image") (rel_target_ref rel)); [|now apply IH].
    destruct (rel_blob rel) as [e|image_data]; [now apply IH|].
    apply IH; [|assumption]. apply Forall_app. split; [assumption|].
    constructor; [|constructor]. cbn [img_format]. split.
    - apply after_last_dot_no_dot. intros [].
    - destruct (after_last_dot_suffix (rel_target_ref rel) []) as [a Ha].
      exists rel, a. split; [assumption | exact Ha]. }
  intros Himg.
  pose proof (G (word_rels doc) [] [] (Forall_nil _) (incl_refl _)) as F.
  rewrite Forall_forall in F. exact (F img Himg).
Qed.

Lemma word_image_format_is_the_extension_witness :
  ~ In 46 (u "png")
  /\ exists rel a,
       In rel (word_rels manual) /\ rel_target_ref rel = a ++ u "png".
Proof.
  apply (@word_image_format_is_the_extension manual
           {| img_page := None; img_index := None; img_slide := None;
              img_data := u "iVBORw=="; img_format := u "png";
              img_relation_id := Some (u "rId7") |}).
  vm_compute. left. reflexivity.
Defined.

Lemma sql_matches_are_keywords_witness :
  (List.length (u "SELECT") <= 6)%nat.
Proof.
  apply (@sql_matches_are_keywords (u "SELECT * FROM users;") (u "SELECT")).
  vm_compute. left. reflexivity.
Defined.

(** ** Files without an adapter *)

Lemma strangers_are_passed_over `{Unicode} `{SetOrder} `{Disk} (output_dir : str)
    (files : list file) :
  forallb (fun f => negb (supported f)) files = true ->
  forall w, for_each (process_file output_dir) files w = (Ok tt, w).
Proof.
  induction files as [|f files IH]; intros Hall w; cbn [for_each];
    [reflexivity|].
  cbn [forallb] in Hall. apply andb_true_iff in Hall as [Hf Hrest].
  apply negb_true_iff in Hf. unfold supported in Hf.
  unfold bind, process_file at 1. rewrite Hf. cbn [ret]. now apply IH.
Qed.

(** X29: files whose extension has no adapter leave no trace: for a batch of such
    files the driver logs its first and its last record only, counts nothing
    and writes nothing. *)
Theorem unsupported_files_leave_no_trace `{Unicode} `{SetOrder} `{Disk}
    (input_dir output_dir : str) (files : list file) (w : world) :
  forallb (fun f => negb (supported f)) files = true ->
  process_all_documents input_dir output_dir files w =
    (Ok tt,
     {| processed_count := processed_count w;
        log := (log w ++ [(INFO, u "开始处理目录: " ++ input_dir)])
               ++ [(INFO, u "处理完成，共处理 " ++ str_of_nat (processed_count w)
                          ++ u " 个文件")];
        written := written w |}).
Proof.
  intros Hall. unfold process_all_documents.
  unfold bind at 1, logger at 1. unfold bind at 1.
  rewrite (strangers_are_passed_over output_dir files Hall). reflexivity.
Qed.

Lemma unsupported_files_leave_no_trace_witness :
  @process_all_documents basic_unicode first_seen good_disk
    (u "in") (u "out") strangers start
  = (Ok tt,
     {| processed_count := 0;
        log := [(INFO, u "开始处理目录: in"); (INFO, u "处理完成，共处理 0 个文件")];
        written := [] |}).
Proof.
  eapply eq_trans.
  - apply (@unsupported_files_leave_no_trace basic_unicode first_seen good_disk).
    vm_compute. reflexivity.
  - vm_compute. reflexivity.
Defined.
